(** * The Big Board: the wager accounting engine

    A shallow embedding of the pure query functions of the betting grid
    ([src/app/page.tsx], and the earlier in-memory variant with signed
    odds found in [src/unnamed/part_000]) together with the properties the
    design document states about them.

    Conventions of the embedding:
    - a JavaScript [number] is an exact rational ([Q]); equalities between
      numbers are stated with [==] ([Qeq]);
    - [Array.prototype.filter], [map] and [reduce] are [filter], [map] and
      [fold_left]; a [for ... of] loop that pushes to an array or bumps
      counters is a [fold_left] over the loop state;
    - an optional or nullable field is an [option];
    - a union of string literals is an inductive type. *)

From Stdlib Require Import List String Bool Arith ZArith QArith Qabs.
From Stdlib Require Import Lia Lqa Permutation Sorted.
Import ListNotations.

Local Open Scope string_scope.
Local Open Scope list_scope.
Local Open Scope Q_scope.

(** ** Values shared by the variants *)

(** [status: 'open' | 'resolved'] *)
Inductive Status : Set := open | resolved.

(** [result?: 'from' | 'to' | 'push' | null]: the three literals. *)
Inductive Result : Set := ResultFrom | ResultTo | ResultPush.

Definition Status_eqb (a b : Status) : bool :=
  match a, b with
  | open, open | resolved, resolved => true
  | _, _ => false
  end.

Definition Result_eqb (a b : Result) : bool :=
  match a, b with
  | ResultFrom, ResultFrom | ResultTo, ResultTo | ResultPush, ResultPush => true
  | _, _ => false
  end.

(** [wager.result === 'push'] and the like, on the optional field. *)
Definition result_is (o : option Result) (r : Result) : bool :=
  match o with
  | Some r' => Result_eqb r' r
  | None => false
  end.

(** Strict comparison of numbers, [a < b]. *)
Definition Qltb (a b : Q) : bool := negb (Qle_bool b a).

(** Truthiness of a number that may be [undefined]: [undefined] and [0]
    are falsy.  [jsOr o d] is [o || d]. *)
Definition jsOr (o : option Q) (d : Q) : Q :=
  match o with
  | Some v => if Qeq_bool v 0 then d else v
  | None => d
  end.

(** Truthiness of an optional string: [undefined], [null] and the empty
    string are falsy. *)
Definition truthy (o : option string) : bool :=
  match o with
  | Some s => negb (s =? "")%string
  | None => false
  end.

(** [a || b] on optional strings. *)
Definition strOr (a b : option string) : option string :=
  if truthy a then a else b.

(** *** Sorting

    [Array.prototype.sort] with a comparator is a stable sort.  It is
    modelled by a stable insertion sort; [before x y] says that the
    comparator does not ask for [y] to be moved in front of [x]
    ([cmp x y <= 0]). *)
Section Sorting.
Context {A : Type} (before : A -> A -> bool).

Fixpoint insertBy (x : A) (l : list A) : list A :=
  match l with
  | [] => [x]
  | y :: r => if before x y then x :: y :: r else y :: insertBy x r
  end.

Definition sortBy (l : list A) : list A := fold_right insertBy [] l.
End Sorting.

(** [amounts.sort((a, b) => a - b)] *)
Definition sortAscending (amounts : list Q) : list Q := sortBy Qle_bool amounts.


(** ** The current page ([src/app/page.tsx]): positive odds only *)
Module Page.

(** Preset users in alphabetical order. *)
Definition USERS : list string :=
  [ "Chas"; "Clay"; "Craig"; "Daniel"; "John"; "Matt"; "Nick"; "Ryan";
    "Sean"; "Ted"; "Trey"; "Will"; "Zac" ].

(** Wager data model (matches the database schema). *)
Record Wager : Type := mkWager {
  id : string;
  from_user : string;
  to_user : string;
  amount : Q;
  odds : Q;
  description : string;
  status : Status;
  result : option Result;
  created_by : option string;
  created_at : option string;
  updated_at : option string
}.

Inductive ActivityType : Set := created | resolved_activity.
Inductive ActivityResult : Set := win | loss | push.

(** Activity item of the Recent Activity feed. *)
Record ActivityItem : Type := mkActivity {
  act_id : string;
  type : ActivityType;
  user : string;
  opponent : string;
  act_result : option ActivityResult;
  timestamp : string;
  act_description : string
}.

Record HeatmapThresholds : Type := mkThresholds { low : Q; medium : Q }.

Record CellData : Type := mkCell { cell_amount : Q; count : nat }.

Record UserRecord : Type := mkRecord { wins : nat; losses : nat; pushes : nat }.

(** The CSS class a cell gets; [HeatNone] is the empty class name. *)
Inductive HeatClass : Set := HeatNone | HeatLow | HeatMedium | HeatHigh.

Definition is_open (w : Wager) : bool := Status_eqb (status w) open.
Definition is_resolved (w : Wager) : bool := Status_eqb (status w) resolved.

(** *** Activity feed *)
Section Activity.
(** [new Date(s).getTime()], and the string [new Date().toISOString()]
    yields when the feed is derived. *)
Variable getTime : string -> Z.
Variable now : string.

Definition createdActivity (wager : Wager) : list ActivityItem :=
  match created_at wager with
  | Some ts =>
      if truthy (created_at wager) then
        [ {| act_id := (id wager ++ "-created")%string;
             type := created;
             user := from_user wager;
             opponent := to_user wager;
             act_result := None;
             timestamp := ts;
             act_description := description wager |} ]
      else []
  | None => []
  end.

Definition resultText (r : Result) : ActivityResult :=
  if Result_eqb r ResultPush then push
  else if Result_eqb r ResultFrom then win else loss.

Definition resolvedTimestamp (wager : Wager) : string :=
  match strOr (updated_at wager) (strOr (created_at wager) (Some now)) with
  | Some ts => ts
  | None => now
  end.

Definition resolvedActivity (wager : Wager) : list ActivityItem :=
  match result wager with
  | Some r =>
      if is_resolved wager then
        [ {| act_id := (id wager ++ "-resolved")%string;
             type := resolved_activity;
             user := from_user wager;
             opponent := to_user wager;
             act_result := Some (resultText r);
             timestamp := resolvedTimestamp wager;
             act_description := description wager |} ]
      else []
  | None => []
  end.

(** The body of the [for (const wager of wagers)] loop: up to two
    pushes. *)
Definition pushActivities (activities : list ActivityItem) (wager : Wager)
  : list ActivityItem :=
  (activities ++ createdActivity wager) ++ resolvedActivity wager.

(** [(a, b) => getTime(b) - getTime(a)] is not positive. *)
Definition newerFirst (a b : ActivityItem) : bool :=
  (getTime (timestamp b) - getTime (timestamp a) <=? 0)%Z.

Definition deriveActivityItems (wagers : list Wager) : list ActivityItem :=
  let activities := fold_left pushActivities wagers [] in
  firstn 8 (sortBy newerFirst activities).
End Activity.

(** *** Aggregation queries *)

Definition getWagersBetweenUsers (wagers : list Wager) (user1 user2 : string)
    (openOnly : bool) : list Wager :=
  filter (fun wager =>
    (((from_user wager =? user1)%string && (to_user wager =? user2)%string) ||
     ((from_user wager =? user2)%string && (to_user wager =? user1)%string)) &&
    (negb openOnly || is_open wager)) wagers.

(** The detail panel's [selectedWagers]: directional, both statuses. *)
Definition selectedWagers (wagers : list Wager) (userA userB : string)
    : list Wager :=
  filter (fun w => (from_user w =? userA)%string && (to_user w =? userB)%string)
         wagers.

Definition getCellHeatmapClass (amt : Q) (thresholds : HeatmapThresholds)
    : HeatClass :=
  if Qeq_bool amt 0 then HeatNone
  else if Qle_bool amt (low thresholds) then HeatLow
  else if Qle_bool amt (medium thresholds) then HeatMedium
  else HeatHigh.

Definition calculateUserExposure (wagers : list Wager) (u : string) : Q :=
  fold_left (fun total wager => total + amount wager * (odds wager / 100))
    (filter (fun wager => (from_user wager =? u)%string && is_open wager) wagers)
    0.

Definition getCellData (wagers : list Wager) (fromUser toUser : string)
    : CellData :=
  let userWagers :=
    filter (fun w => (from_user w =? fromUser)%string &&
                     (to_user w =? toUser)%string && is_open w) wagers in
  let totalAmount := fold_left (fun sum wager => sum + amount wager) userWagers 0 in
  {| cell_amount := totalAmount; count := List.length userWagers |}.

(** The callback of the [reduce] in [calculateUserReturns]. *)
Definition returnsStep (u : string) (total : Q) (wager : Wager) : Q :=
  if result_is (result wager) ResultPush then total
  else
    let toWinAmount := amount wager * (odds wager / 100) in
    if (from_user wager =? u)%string then
      total + (if result_is (result wager) ResultFrom
               then amount wager else - toWinAmount)
    else
      total + (if result_is (result wager) ResultTo
               then toWinAmount else - amount wager).

Definition involves (u : string) (w : Wager) : bool :=
  is_resolved w && ((from_user w =? u)%string || (to_user w =? u)%string).

Definition calculateUserReturns (wagers : list Wager) (u : string) : Q :=
  fold_left (returnsStep u) (filter (involves u) wagers) 0.

(** The body of the loop of [calculateUserRecord]. *)
Definition recordStep (u : string) (r : UserRecord) (wager : Wager) : UserRecord :=
  if result_is (result wager) ResultPush then
    {| wins := wins r; losses := losses r; pushes := S (pushes r) |}
  else if (from_user wager =? u)%string then
    if result_is (result wager) ResultFrom
    then {| wins := S (wins r); losses := losses r; pushes := pushes r |}
    else {| wins := wins r; losses := S (losses r); pushes := pushes r |}
  else
    if result_is (result wager) ResultTo
    then {| wins := S (wins r); losses := losses r; pushes := pushes r |}
    else {| wins := wins r; losses := S (losses r); pushes := pushes r |}.

Definition calculateUserRecord (wagers : list Wager) (u : string) : UserRecord :=
  let resolved := filter (involves u) wagers in
  fold_left (recordStep u) resolved {| wins := 0; losses := 0; pushes := 0 |}.

(** *** Heatmap thresholds *)

(** The inner loop over [colUser] of [heatmapThresholds]. *)
Definition pushRow (wagers : list Wager) (rowUser : string)
    (amounts : list Q) : list Q :=
  fold_left (fun amounts colUser =>
    if negb (rowUser =? colUser)%string then
      let amt := cell_amount (getCellData wagers rowUser colUser) in
      if Qltb 0 amt then amounts ++ [amt] else amounts
    else amounts) USERS amounts.

(** The nested loops: the nonzero directional cell amounts. *)
Definition cellAmounts (wagers : list Wager) : list Q :=
  fold_left (fun amounts rowUser => pushRow wagers rowUser amounts) USERS [].

(** What [heatmapThresholds] does with the collected [amounts]. *)
Definition thresholdsOf (amounts : list Q) : HeatmapThresholds :=
  if (List.length amounts =? 0)%nat then {| low := 0; medium := 0 |}
  else
    let sorted := sortAscending amounts in
    let lowIndex := (List.length sorted / 3)%nat in
    let medIndex := (List.length sorted * 2 / 3)%nat in
    let first := nth 0 sorted 0 in
    {| low := jsOr (nth_error sorted lowIndex) first;
       medium := jsOr (nth_error sorted medIndex)
                      (jsOr (nth_error sorted lowIndex) first) |}.

Definition heatmapThresholds (wagers : list Wager) : HeatmapThresholds :=
  thresholdsOf (cellAmounts wagers).

(** *** The design document's reading of the queries

    These definitions follow the words of the design document, not the
    code; the theorems below compare the two. *)

(** [payoutMultiplier(odds) = 1 + odds/100] *)
Definition payoutMultiplier (o : Q) : Q := 1 + o / 100.

(** The multiplier the code applies: [odds/100]. *)
Definition oddsRatio (o : Q) : Q := o / 100.

(** [Σ over open wagers w where w.fromUser = user of amount(w) × mult(odds(w))] *)
Fixpoint exposureSum (mult : Q -> Q) (u : string) (ws : list Wager) : Q :=
  match ws with
  | [] => 0
  | w :: r =>
      (if (from_user w =? u)%string && is_open w
       then amount w * mult (odds w) else 0) + exposureSum mult u r
  end.

(** What one resolved wager contributes to the returns of [u], with
    from-side profit [p = amount × mult(odds)]. *)
Definition returnContribution (mult : Q -> Q) (u : string) (w : Wager) : Q :=
  let p := amount w * mult (odds w) in
  match result w with
  | Some ResultPush => 0
  | r =>
      if (from_user w =? u)%string then
        match r with Some ResultFrom => amount w | _ => - p end
      else if (to_user w =? u)%string then
        match r with Some ResultTo => p | _ => - amount w end
      else 0
  end.

(** The sum of the contributions of the resolved wagers. *)
Fixpoint returnsSum (mult : Q -> Q) (u : string) (ws : list Wager) : Q :=
  match ws with
  | [] => 0
  | w :: r =>
      (if is_resolved w then returnContribution mult u w else 0)
      + returnsSum mult u r
  end.

(** [Σ amount] over the open wagers with exactly that from/to pair. *)
Fixpoint cellSum (a b : string) (ws : list Wager) : Q :=
  match ws with
  | [] => 0
  | w :: r =>
      (if (from_user w =? a)%string && (to_user w =? b)%string && is_open w
       then amount w else 0) + cellSum a b r
  end.

(** The number of such wagers. *)
Fixpoint cellCount (a b : string) (ws : list Wager) : nat :=
  match ws with
  | [] => 0%nat
  | w :: r =>
      ((if (from_user w =? a)%string && (to_user w =? b)%string && is_open w
        then 1 else 0) + cellCount a b r)%nat
  end.

(** The number of resolved wagers in which [u] appears on either side. *)
Fixpoint resolvedInvolving (u : string) (ws : list Wager) : nat :=
  match ws with
  | [] => 0%nat
  | w :: r =>
      ((if is_resolved w && ((from_user w =? u)%string || (to_user w =? u)%string)
        then 1 else 0) + resolvedInvolving u r)%nat
  end.

(** The directional cell amounts that pass [keep], over the ordered pairs
    of distinct users of a roster, row by row. *)
Definition cellsWhere (keep : Q -> bool) (roster : list string)
    (ws : list Wager) : list Q :=
  flat_map (fun rowUser =>
    flat_map (fun colUser =>
      if negb (rowUser =? colUser)%string
         && keep (cell_amount (getCellData ws rowUser colUser))
      then [cell_amount (getCellData ws rowUser colUser)] else [])
      roster) roster.

(** The nonzero cell amounts, as the design document words it. *)
Definition nonzeroCells : list string -> list Wager -> list Q :=
  cellsWhere (fun amt => negb (Qeq_bool amt 0)).

(** The positive cell amounts, the test the loop makes. *)
Definition positiveCells : list string -> list Wager -> list Q :=
  cellsWhere (Qltb 0).

(** "The value at index [i], falling back to [fallback] if that index is
    empty." *)
Definition valueAt (sorted : list Q) (i : nat) (fallback : Q) : Q :=
  match nth_error sorted i with
  | Some v => v
  | None => fallback
  end.

(** [{fromUser,toUser} = {a,b}] in either order. *)
Definition pairEither (a b : string) (w : Wager) : bool :=
  ((from_user w =? a)%string && (to_user w =? b)%string) ||
  ((from_user w =? b)%string && (to_user w =? a)%string).

(** The events one wager gives rise to. *)
Definition wagerEvents (now : string) (w : Wager) : list ActivityItem :=
  createdActivity w ++ resolvedActivity now w.

(** The outcome word, framed relative to the placer. *)
Definition outcomeWord (r : Result) : ActivityResult :=
  match r with
  | ResultFrom => win
  | ResultTo => loss
  | ResultPush => push
  end.

(** A stamp that is present: neither missing nor empty. *)
Definition present (o : option string) : option string :=
  match o with
  | Some "" => None
  | other => other
  end.

(** [updatedAt], falling back to [createdAt], then the current time. *)
Definition resolvedAt (now : string) (w : Wager) : string :=
  match present (updated_at w), present (created_at w) with
  | Some ts, _ => ts
  | None, Some ts => ts
  | None, None => now
  end.

Definition event (w : Wager) (ty : ActivityType)
    (word : option ActivityResult) (ts : string) : ActivityItem :=
  {| act_id := (id w ++ (match ty with
                         | created => "-created"
                         | resolved_activity => "-resolved"
                         end))%string;
     type := ty;
     user := from_user w;
     opponent := to_user w;
     act_result := word;
     timestamp := ts;
     act_description := description w |}.

(** The created event of a wager whose [createdAt] is present. *)
Definition createdEvents (w : Wager) : list ActivityItem :=
  match present (created_at w) with
  | Some ts => [event w created None ts]
  | None => []
  end.

(** The resolved event of a resolved wager whose result is recorded. *)
Definition resolvedEvents (now : string) (w : Wager) : list ActivityItem :=
  match status w, result w with
  | resolved, Some r =>
      [event w resolved_activity (Some (outcomeWord r)) (resolvedAt now w)]
  | _, _ => []
  end.

(** [a] is at least as recent as [b]. *)
Definition notOlder (getTime : string -> Z) (a b : ActivityItem) : Prop :=
  (getTime (timestamp b) <= getTime (timestamp a))%Z.

(** A wager that, once resolved, has a recorded result and two distinct
    roster users as its sides. *)
Definition settledAmongRoster (w : Wager) : Prop :=
  status w = resolved ->
  (exists r, result w = Some r) /\ from_user w <> to_user w
  /\ In (from_user w) USERS /\ In (to_user w) USERS.

(** *** The rest of the page's engine *)

(** What [formatRelativeTime] prints: ['just now'], [`${n}m ago`],
    [`${n}h ago`], [`${n}d ago`], or the locale date of the stamp. *)
Inductive RelativeTime : Set :=
| JustNow
| MinutesAgo (n : Z)
| HoursAgo (n : Z)
| DaysAgo (n : Z)
| LocaleDate (thenMs : Z).

(** [formatRelativeTime], on the two [getTime()] values (milliseconds):
    that of [new Date()] and that of [new Date(timestamp)], for a stamp
    that parses ([Math.floor] of a quotient of integers is [Z.div]). *)
Definition formatRelativeTime (nowMs thenMs : Z) : RelativeTime :=
  let diffMs := (nowMs - thenMs)%Z in
  let diffMins := (diffMs / 60000)%Z in
  let diffHours := (diffMs / 3600000)%Z in
  let diffDays := (diffMs / 86400000)%Z in
  if (diffMins <? 1)%Z then JustNow
  else if (diffMins <? 60)%Z then MinutesAgo diffMins
  else if (diffHours <? 24)%Z then HoursAgo diffHours
  else if (diffDays <? 7)%Z then DaysAgo diffDays
  else LocaleDate thenMs.

(** Total dollar amount between two users (open wagers only). *)
Definition getCellAmount (wagers : list Wager) (user1 user2 : string) : Q :=
  let userWagers := getWagersBetweenUsers wagers user1 user2 true in
  fold_left (fun sum wager => sum + amount wager) userWagers 0.

(** Total amount wagered by a user (resolved wagers only). *)
Definition calculateTotalWagered (wagers : list Wager) (u : string) : Q :=
  fold_left (fun total wager =>
               if (from_user wager =? u)%string
               then total + amount wager
               else total + amount wager * (odds wager / 100))
    (filter (involves u) wagers) 0.

(** Exposure tier for user header tinting (0-3); the bounds are 0.25,
    0.5 and 0.75. *)
Definition getExposureTier (exposure maxExposure : Q) : nat :=
  if Qeq_bool maxExposure 0 || Qeq_bool exposure 0 then 0%nat
  else
    let ratio := exposure / maxExposure in
    if Qltb ratio (1 # 4) then 0%nat
    else if Qltb ratio (1 # 2) then 1%nat
    else if Qltb ratio (3 # 4) then 2%nat
    else 3%nat.

(** An entry [{ user, exposure }] of [userExposures]. *)
Record ExposureEntry : Type := mkExposure { exp_user : string; exposure : Q }.

(** [(a, b) => b.exposure - a.exposure] is not positive. *)
Definition moreExposedFirst (a b : ExposureEntry) : bool :=
  Qle_bool (exposure b - exposure a) 0.

Definition userExposures (wagers : list Wager) : list ExposureEntry :=
  let exposures :=
    map (fun u => {| exp_user := u; exposure := calculateUserExposure wagers u |})
        USERS in
  sortBy moreExposedFirst exposures.

(** [userExposures[0]?.exposure || 0] *)
Definition maxExposure (wagers : list Wager) : Q :=
  jsOr (option_map exposure (nth_error (userExposures wagers) 0)) 0.

(** [userExposures[0]?.user] *)
Definition topExposedUser (wagers : list Wager) : option string :=
  option_map exp_user (nth_error (userExposures wagers) 0).

(** An entry [{ user, returns, totalWagered, record }] of [leaderboard]. *)
Record LeaderboardEntry : Type := mkEntry {
  lb_user : string;
  returns : Q;
  totalWagered : Q;
  record : UserRecord
}.

(** [(a, b) => b.returns - a.returns] is not positive. *)
Definition higherReturnsFirst (a b : LeaderboardEntry) : bool :=
  Qle_bool (returns b - returns a) 0.

Definition leaderboard (wagers : list Wager) : list LeaderboardEntry :=
  sortBy higherReturnsFirst
    (map (fun u => {| lb_user := u;
                      returns := calculateUserReturns wagers u;
                      totalWagered := calculateTotalWagered wagers u;
                      record := calculateUserRecord wagers u |}) USERS).

(** The members of the set [top3Users], in order. *)
Definition top3Users (wagers : list Wager) : list string :=
  map exp_user
      (firstn 3 (filter (fun u => Qltb 0 (exposure u)) (userExposures wagers))).

(** [user === topExposedUser], the latter possibly [undefined]. *)
Definition isTopExposed (wagers : list Wager) (u : string) : bool :=
  match topExposedUser wagers with
  | Some top => (u =? top)%string
  | None => false
  end.

(** The badge of a user: none, the crown or the warning sign. *)
Inductive Badge : Set := NoBadge | Crown | Warning.

Definition getUserBadge (wagers : list Wager) (u : string) : Badge :=
  if isTopExposed wagers u && Qltb 0 (maxExposure wagers) then Crown
  else if existsb (String.eqb u) (top3Users wagers)
          && negb (isTopExposed wagers u) then Warning
  else NoBadge.


(** Sorted users: pinned user first, then alphabetical. *)
Definition sortedUsers (pinnedUser : option string) : list string :=
  match pinnedUser with
  | Some p =>
      if truthy pinnedUser
      then p :: filter (fun u => negb (u =? p)%string) USERS
      else USERS
  | None => USERS
  end.

(** The state update of [handleToUserToggle]. *)
Definition handleToUserToggle (prev : list string) (u : string) : list string :=
  if existsb (String.eqb u) prev
  then filter (fun v => negb (v =? u)%string) prev
  else prev ++ [u].

(** *** The create and edit form *)

(** The form, with [formAmount] and [formOdds] as [parseFloat] and
    [parseInt] read them: [None] is [NaN]. *)
Record WagerForm : Type := mkForm {
  formFrom : string;
  formToUsers : list string;
  formAmount : option Q;
  formOdds : option Z;
  formDescription : string
}.

(** A row handed to the [insert] of the wagers table. *)
Record NewWager : Type := mkNewWager {
  new_from_user : string;
  new_to_user : string;
  new_amount : Q;
  new_odds : Q;
  new_description : string;
  new_status : Status;
  new_created_by : option string
}.

(** What [handleSubmit] asks of the wagers table, or the form error
    ['Please fill in all fields']. *)
Inductive SubmitAction : Type :=
| FormError
| UpdateWager (wagerId : string) (description : string) (amount odds : Q)
| InsertWagers (rows : list NewWager).

Section Form.
(** [String.prototype.trim] *)
Variable trim : string -> string.

(** Filter out the "from" user from "to" users. *)
Definition validToUsers (f : WagerForm) : list string :=
  filter (fun u => negb (u =? formFrom f)%string) (formToUsers f).

(** [amount > 0] and [odds > 0]; a comparison with [NaN] is false. *)
Definition positiveAmount (a : option Q) : bool :=
  match a with
  | Some v => Qltb 0 v
  | None => false
  end.

Definition positiveOdds (o : option Z) : bool :=
  match o with
  | Some v => (0 <? v)%Z
  | None => false
  end.

(** [!isNaN(x)] *)
Definition notNaN {A : Type} (x : option A) : bool :=
  match x with
  | Some _ => true
  | None => false
  end.

Definition isFormValid (f : WagerForm) : bool :=
  negb (formFrom f =? "")%string
  && (0 <? List.length (validToUsers f))%nat
  && notNaN (formAmount f)
  && positiveAmount (formAmount f)
  && notNaN (formOdds f)
  && positiveOdds (formOdds f)
  && negb (trim (formDescription f) =? "")%string.

(** The pure part of [handleSubmit]: the guard and the payload of the
    call made to the wagers table. *)
Definition handleSubmit (editingWager : option Wager)
    (currentUserName : option string) (f : WagerForm) : SubmitAction :=
  match formAmount f, formOdds f with
  | Some amount, Some odds =>
      if truthy (Some (formFrom f))
         && (0 <? List.length (validToUsers f))%nat
         && Qltb 0 amount
         && (0 <? odds)%Z
         && truthy (Some (trim (formDescription f)))
      then
        match editingWager with
        | Some wager =>
            UpdateWager (id wager) (trim (formDescription f)) amount (inject_Z odds)
        | None =>
            InsertWagers
              (map (fun toUser =>
                      {| new_from_user := formFrom f;
                         new_to_user := toUser;
                         new_amount := amount;
                         new_odds := inject_Z odds;
                         new_description := trim (formDescription f);
                         new_status := open;
                         new_created_by := currentUserName |})
                   (validToUsers f))
        end
      else FormError
  | _, _ => FormError
  end.
End Form.

End Page.

(** ** The in-memory variant with signed odds ([src/unnamed/part_000]) *)
Module Signed.

(** The interface declares [odds] with the type [FractionalOdds], but the
    sample data and every function treat it as a signed number. *)
Record Wager : Type := mkWager {
  id : string;
  from : string;
  to : string;
  amount : Q;
  odds : Q;
  description : string;
  status : Status;
  result : option Result
}.

Definition is_open (w : Wager) : bool := Status_eqb (status w) open.
Definition is_resolved (w : Wager) : bool := Status_eqb (status w) resolved.

(** Calculate odds multiplier for exposure. *)
Definition getOddsMultiplier (o : Q) : Q :=
  if Qltb o 0 then 1 else 1 + o / 100.

Definition calculateUserExposure (wagers : list Wager) (u : string) : Q :=
  fold_left (fun total wager => total + amount wager * getOddsMultiplier (odds wager))
    (filter (fun wager => (from wager =? u)%string && is_open wager) wagers)
    0.

(** What the "from" user would win based on odds. *)
Definition fromProfit (wager : Wager) : Q :=
  if Qltb (odds wager) 0
  then amount wager * (100 / Qabs (odds wager))
  else amount wager * (odds wager / 100).

Definition returnsStep (u : string) (total : Q) (wager : Wager) : Q :=
  if result_is (result wager) ResultPush then total
  else
    if (from wager =? u)%string then
      total + (if result_is (result wager) ResultFrom
               then fromProfit wager else - amount wager)
    else
      total + (if result_is (result wager) ResultTo
               then amount wager else - fromProfit wager).

Definition involves (u : string) (w : Wager) : bool :=
  is_resolved w && ((from w =? u)%string || (to w =? u)%string).

Definition calculateUserReturns (wagers : list Wager) (u : string) : Q :=
  fold_left (returnsStep u) (filter (involves u) wagers) 0.

(** The state update of [handleResolveWager]:
    [{ ...wager, status: 'resolved', result }] for the wager with the
    given id. *)
Definition handleResolveWager (prev : list Wager) (wagerId : string)
    (r : Result) : list Wager :=
  map (fun wager =>
         if (id wager =? wagerId)%string then
           {| id := id wager;
              from := from wager;
              to := to wager;
              amount := amount wager;
              odds := odds wager;
              description := description wager;
              status := resolved;
              result := Some r |}
         else wager) prev.

(** *** The design document's reading *)

(** [toStakeMultiplier(odds) = 100/|odds|] *)
Definition toStakeMultiplier (o : Q) : Q := 100 / Qabs o.

(** How resolving the wager [wagerId] with result [r] relates a wager
    [w] to its successor [w']. *)
Definition resolvedFrom (wagerId : string) (r : Result) (w w' : Wager) : Prop :=
  if (id w =? wagerId)%string then
    status w' = resolved /\ result w' = Some r
    /\ id w' = id w /\ from w' = from w /\ to w' = to w
    /\ amount w' = amount w /\ odds w' = odds w
    /\ description w' = description w
  else w' = w.

(** The stakes of the open wagers placed by [u]. *)
Fixpoint openStake (u : string) (ws : list Wager) : Q :=
  match ws with
  | [] => 0
  | w :: r =>
      (if (from w =? u)%string && is_open w then amount w else 0)
      + openStake u r
  end.

(** What one wager contributes to the returns of [u] in this variant,
    given the from-side profit [p]. *)
Definition returnContribution (p : Q) (u : string) (w : Wager) : Q :=
  if negb (involves u w) then 0
  else
    match result w with
    | Some ResultPush => 0
    | r =>
        if (from w =? u)%string then
          match r with Some ResultFrom => p | _ => - amount w end
        else
          match r with Some ResultTo => amount w | _ => - p end
    end.

End Signed.

(** ** Sample data *)
Module Samples.

Definition pageWager (i f t : string) (a o : Q) (s : Status)
    (r : option Result) (c u : option string) : Page.Wager :=
  {| Page.id := i; Page.from_user := f; Page.to_user := t;
     Page.amount := a; Page.odds := o; Page.description := "sample";
     Page.status := s; Page.result := r; Page.created_by := None;
     Page.created_at := c; Page.updated_at := u |}.

(** The scenario of the design document: [A→B, amount=100, odds=+200]. *)
Definition scenario : list Page.Wager :=
  [ pageWager "w1" "A" "B" 100 200 open None (Some "2025-01-01T00:00:00Z") None ].

(** A single resolved wager, [amount=100, odds=+150, result=from]. *)
Definition settled : Page.Wager :=
  pageWager "w2" "A" "B" 100 150 resolved (Some ResultFrom)
            (Some "2025-01-01T00:00:00Z") (Some "2025-01-02T00:00:00Z").

(** A row that carries no [created_at]. *)
Definition undated : Page.Wager :=
  pageWager "w3" "A" "B" 100 150 open None None None.

(** Open wagers whose cell amounts are 10, 10, 20, 30 and 100; the cell
    Chas→Craig is made of two wagers, and a resolved wager is ignored. *)
Definition board : list Page.Wager :=
  [ pageWager "b1" "Will" "Zac" 100 100 open None None None;
    pageWager "b2" "Chas" "Clay" 10 100 open None None None;
    pageWager "b3" "Chas" "Craig" 15 100 open None None None;
    pageWager "b4" "Clay" "Chas" 10 200 open None None None;
    pageWager "b5" "Chas" "Craig" 15 300 open None None None;
    pageWager "b6" "Ted" "Trey" 20 100 open None None None;
    pageWager "b7" "Ted" "Trey" 500 100 resolved (Some ResultTo) None None ].

(** A season among roster users: three resolved wagers and an open one. *)
Definition season : list Page.Wager :=
  [ pageWager "r1" "Chas" "Clay" 100 150 resolved (Some ResultFrom) None None;
    pageWager "r2" "Clay" "Will" 50 200 resolved (Some ResultTo) None None;
    pageWager "r3" "Will" "Chas" 20 100 resolved (Some ResultPush) None None;
    pageWager "r4" "Zac" "Ted" 40 100 open None None None ].

(** A filled form: Chas against Clay, himself and Will. *)
Definition filled : Page.WagerForm :=
  {| Page.formFrom := "Chas";
     Page.formToUsers := ["Clay"; "Chas"; "Will"];
     Page.formAmount := Some 25;
     Page.formOdds := Some 150%Z;
     Page.formDescription := "Super Bowl" |}.

(** Two of the initial sample wagers of the in-memory variant. *)
Definition chiefs : Signed.Wager :=
  {| Signed.id := "s1"; Signed.from := "Will"; Signed.to := "John";
     Signed.amount := 100; Signed.odds := -110;
     Signed.description := "Chiefs vs Eagles Super Bowl";
     Signed.status := open; Signed.result := None |}.

Definition dodgers : Signed.Wager :=
  {| Signed.id := "s9"; Signed.from := "John"; Signed.to := "Clay";
     Signed.amount := 80; Signed.odds := -110;
     Signed.description := "Dodgers win World Series";
     Signed.status := resolved; Signed.result := Some ResultFrom |}.

(** A toy clock: the time of a stamp is its length. *)
Definition toyTime (s : string) : Z := Z.of_nat (String.length s).

(** Two dated wagers for the toy clock, the second one resolved. *)
Definition dated : list Page.Wager :=
  [ pageWager "d1" "A" "B" 100 150 open None (Some "tt") None;
    pageWager "d2" "B" "C" 50 100 resolved (Some ResultTo) (Some "t") (Some "tttt") ].

End Samples.

(** ** Lists and sorting *)

Ltac break_if :=
  match goal with
  | |- context [if ?b then _ else _] => destruct b eqn:?
  end.

Lemma filter_filter {A : Type} (p q : A -> bool) (l : list A) :
  filter p (filter q l) = filter (fun x => q x && p x) l.
Proof.
  induction l as [|x l IH]; simpl; [reflexivity|].
  destruct (q x); simpl; [destruct (p x)|]; rewrite IH; reflexivity.
Qed.

Lemma fold_left_same {A B : Type} (f g : A -> B -> A) (l : list B) (a : A) :
  (forall a x, f a x = g a x) -> fold_left f l a = fold_left g l a.
Proof.
  intros E; revert a; induction l as [|x l IH]; intros a; simpl;
    [reflexivity|].
  rewrite E. apply IH.
Qed.

(** A loop that pushes [f x] for each [x] builds a [flat_map]. *)
Lemma fold_left_push {A B : Type} (f : B -> list A) (l : list B) (acc : list A) :
  fold_left (fun acc x => acc ++ f x) l acc = acc ++ flat_map f l.
Proof.
  revert acc; induction l as [|x l IH]; intros acc; simpl.
  - symmetry; apply app_nil_r.
  - rewrite IH. symmetry; apply app_assoc.
Qed.

Section SortingFacts.
Context {A : Type} (before : A -> A -> bool).

Lemma insertBy_perm (x : A) (l : list A) :
  Permutation (insertBy before x l) (x :: l).
Proof.
  induction l as [|y l IH]; simpl; [reflexivity|].
  destruct (before x y); [reflexivity|].
  rewrite IH. apply perm_swap.
Qed.

Lemma sortBy_perm (l : list A) : Permutation (sortBy before l) l.
Proof.
  induction l as [|x l IH]; simpl; [reflexivity|].
  rewrite insertBy_perm. constructor. exact IH.
Qed.

Lemma sortBy_length (l : list A) :
  List.length (sortBy before l) = List.length l.
Proof. apply Permutation_length, sortBy_perm. Qed.

Hypothesis before_total : forall x y, before x y = false -> before y x = true.
Hypothesis before_trans :
  forall x y z, before x y = true -> before y z = true -> before x z = true.

Let R (x y : A) : Prop := before x y = true.

Lemma insertBy_sorted (x : A) (l : list A) :
  StronglySorted R l -> StronglySorted R (insertBy before x l).
Proof.
  induction 1 as [|y l Hs IH Hy]; simpl.
  - repeat constructor.
  - destruct (before x y) eqn:E.
    + constructor; [constructor; assumption|].
      constructor; [exact E|].
      eapply Forall_impl; [|exact Hy].
      intros z Hz. exact (before_trans _ _ _ E Hz).
    + constructor; [exact IH|].
      eapply Permutation_Forall; [symmetry; apply insertBy_perm|].
      constructor; [apply before_total; exact E | exact Hy].
Qed.

Lemma sortBy_sorted (l : list A) : StronglySorted R (sortBy before l).
Proof.
  induction l as [|x l IH]; simpl; [constructor|].
  apply insertBy_sorted, IH.
Qed.
End SortingFacts.

Lemma Qle_bool_total (x y : Q) : Qle_bool x y = false -> Qle_bool y x = true.
Proof.
  intros H. apply Qle_bool_iff.
  destruct (Qlt_le_dec x y) as [L|L]; [|exact L].
  apply Qlt_le_weak, Qle_bool_iff in L. congruence.
Qed.

Lemma Qle_bool_trans (x y z : Q) :
  Qle_bool x y = true -> Qle_bool y z = true -> Qle_bool x z = true.
Proof.
  rewrite !Qle_bool_iff. apply Qle_trans.
Qed.

Lemma sortAscending_perm (l : list Q) : Permutation (sortAscending l) l.
Proof. apply sortBy_perm. Qed.

Lemma sortAscending_sorted (l : list Q) : StronglySorted Qle (sortAscending l).
Proof.
  pose proof (sortBy_sorted Qle_bool Qle_bool_total Qle_bool_trans l) as H.
  unfold sortAscending.
  induction H as [|x r Hs IH Hx]; constructor; [exact IH|].
  eapply Forall_impl; [|exact Hx].
  intros y Hy. apply Qle_bool_iff. exact Hy.
Qed.

(** In a sorted list a later index holds a value at least as large. *)
Lemma sorted_nth_error_le (l : list Q) :
  StronglySorted Qle l ->
  forall i j x y, (i <= j)%nat ->
    nth_error l i = Some x -> nth_error l j = Some y -> x <= y.
Proof.
  induction 1 as [|a l Hs IH Ha]; intros i j x y Hij Hi Hj.
  - destruct i; discriminate Hi.
  - destruct i as [|i], j as [|j]; simpl in Hi, Hj.
    + injection Hi as <-; injection Hj as <-. apply Qle_refl.
    + injection Hi as <-. apply nth_error_In in Hj.
      rewrite Forall_forall in Ha. apply Ha, Hj.
    + lia.
    + apply (IH i j); [lia | exact Hi | exact Hj].
Qed.

(** ** Properties of the current page *)
Module PageFacts.
Import Page.

(** *** Exposure *)

Lemma exposure_fold (u : string) (ws : list Wager) (a : Q) :
  fold_left (fun total wager => total + amount wager * (odds wager / 100))
    (filter (fun wager => (from_user wager =? u)%string && is_open wager) ws) a
  == a + exposureSum oddsRatio u ws.
Proof.
  revert a; induction ws as [|w ws IH]; intros a; simpl.
  - ring.
  - destruct ((from_user w =? u)%string && is_open w); simpl;
      rewrite IH; unfold oddsRatio; ring.
Qed.

Lemma exposure_open_only (ws : list Wager) (u : string) :
  calculateUserExposure (filter is_open ws) u = calculateUserExposure ws u.
Proof.
  unfold calculateUserExposure. rewrite filter_filter. f_equal.
  apply filter_ext; intros w.
  destruct (is_open w), (from_user w =? u)%string; reflexivity.
Qed.

Lemma exposure_placer_only (ws : list Wager) (u : string) :
  calculateUserExposure (filter (fun w => (from_user w =? u)%string) ws) u
  = calculateUserExposure ws u.
Proof.
  unfold calculateUserExposure. rewrite filter_filter. f_equal.
  apply filter_ext; intros w.
  destruct (is_open w), (from_user w =? u)%string; reflexivity.
Qed.

(** C1, as the code has it.  For every user [u] and every wager
    collection, the exposure of [u] is the sum, over the open wagers
    placed by [u], of [amount × odds/100] (the multiplier is [odds/100],
    not [1 + odds/100]); resolved wagers and wagers in which [u] is only
    the counterparty contribute nothing; for the single wager [A→B],
    [amount=100], [odds=+200], the exposure of [A] is 200 and that of [B]
    is 0. *)
Theorem exposure_sums_open_placed_wagers :
  forall (ws : list Wager) (u : string),
    calculateUserExposure ws u == exposureSum oddsRatio u ws
    /\ calculateUserExposure (filter is_open ws) u == calculateUserExposure ws u
    /\ calculateUserExposure (filter (fun w => (from_user w =? u)%string) ws) u
       == calculateUserExposure ws u
    /\ calculateUserExposure Samples.scenario "A" == 200
    /\ calculateUserExposure Samples.scenario "B" == 0.
Proof.
  intros ws u. repeat split.
  - unfold calculateUserExposure. rewrite exposure_fold. ring.
  - rewrite exposure_open_only. reflexivity.
  - rewrite exposure_placer_only. reflexivity.
Qed.

(** C1 as stated fails: with [payoutMultiplier(odds) = 1 + odds/100] the
    scenario would give [A] an exposure of 300; the code gives 200. *)
Lemma exposure_scenario_is_not_300 :
  exposureSum payoutMultiplier "A" Samples.scenario == 300
  /\ calculateUserExposure Samples.scenario "A" == 200
  /\ ~ calculateUserExposure Samples.scenario "A" == 300
  /\ ~ calculateUserExposure Samples.scenario "A"
       == exposureSum payoutMultiplier "A" Samples.scenario.
Proof.
  repeat split; try (intros H; vm_compute in H; discriminate H).
Qed.

(** *** Realized returns *)

Lemma returns_fold (u : string) (ws : list Wager) (a : Q) :
  fold_left (returnsStep u) (filter (involves u) ws) a
  == a + returnsSum oddsRatio u ws.
Proof.
  revert a; induction ws as [|w ws IH]; intros a; simpl.
  - ring.
  - destruct (involves u w) eqn:Hinv; simpl; rewrite IH;
      revert Hinv;
      unfold involves, returnsStep, returnContribution, oddsRatio,
        is_resolved, result_is;
      destruct (status w); simpl;
      destruct (from_user w =? u)%string, (to_user w =? u)%string;
      destruct (result w) as [[| |]|]; simpl;
      intros Hinv; try discriminate Hinv; ring.
Qed.

(** C2, as the code has it.  The realized returns of [u] are the sum,
    over the resolved wagers, of the contribution of each, with from-side
    profit [p = amount × odds/100]: a push contributes 0; a wager placed
    by [u] contributes [+amount] when the result is [from] and [−p]
    otherwise; a wager in which [u] is the counterparty contributes [+p]
    when the result is [to] and [−amount] otherwise.  For a single
    resolved wager with [amount=100], [odds=+150], result [from], the
    returns of the placer are +100 and those of the counterparty −100. *)
Theorem returns_sum_of_contributions :
  forall (ws : list Wager) (u : string),
    calculateUserReturns ws u == returnsSum oddsRatio u ws
    /\ calculateUserReturns [Samples.settled] "A" == 100
    /\ calculateUserReturns [Samples.settled] "B" == - (100).
Proof.
  intros ws u. repeat split.
  unfold calculateUserReturns. rewrite returns_fold. ring.
Qed.

(** C2 as stated fails on its own example: the counterparty of a wager
    won by the placer loses the stake (100), not 150; and with
    [payoutMultiplier = 1 + odds/100] the sum of contributions differs
    from what the code computes. *)
Lemma returns_counterparty_is_not_minus_150 :
  calculateUserReturns [Samples.settled] "B" == - (100)
  /\ ~ calculateUserReturns [Samples.settled] "B" == - (150)
  /\ ~ (forall ws u, calculateUserReturns ws u == returnsSum payoutMultiplier u ws).
Proof.
  repeat split.
  - intros H; vm_compute in H; discriminate H.
  - intros H.
    specialize (H [Samples.pageWager "w4" "A" "B" 100 150 resolved
                     (Some ResultTo) None None] "A").
    vm_compute in H; discriminate H.
Qed.

(** C4.  Settlement is zero-sum: for a single resolved wager between two
    distinct users and each of the three results, the returns of the
    placer plus the returns of the counterparty, both computed over the
    one-wager collection, are 0. *)
Theorem settlement_zero_sum (w : Wager) (r : Result) :
  status w = resolved ->
  result w = Some r ->
  from_user w <> to_user w ->
  calculateUserReturns [w] (from_user w)
  + calculateUserReturns [w] (to_user w) == 0.
Proof.
  intros Hs Hr Hne.
  assert (Hf : involves (from_user w) w = true).
  { unfold involves, is_resolved. rewrite Hs, String.eqb_refl. reflexivity. }
  assert (Ht : involves (to_user w) w = true).
  { unfold involves, is_resolved. rewrite Hs, String.eqb_refl.
    apply orb_true_r. }
  unfold calculateUserReturns. simpl. rewrite Hf, Ht. simpl.
  unfold returnsStep. rewrite Hr, String.eqb_refl.
  apply String.eqb_neq in Hne. rewrite Hne.
  destruct r; simpl; ring.
Qed.

Lemma settlement_zero_sum_witness :
  status Samples.settled = resolved
  /\ result Samples.settled = Some ResultFrom
  /\ from_user Samples.settled <> to_user Samples.settled
  /\ calculateUserReturns [Samples.settled] "A"
     + calculateUserReturns [Samples.settled] "B" == 0.
Proof.
  split; [reflexivity|]. split; [reflexivity|].
  split; [discriminate|].
  apply (settlement_zero_sum Samples.settled ResultFrom);
    [reflexivity | reflexivity | discriminate].
Defined.

(** *** Cells and pairs *)

Lemma cell_fold (a b : string) (ws : list Wager) (acc : Q) :
  fold_left (fun sum wager => sum + amount wager)
    (filter (fun w => (from_user w =? a)%string && (to_user w =? b)%string
                      && is_open w) ws) acc
  == acc + cellSum a b ws.
Proof.
  revert acc; induction ws as [|w ws IH]; intros acc; simpl.
  - ring.
  - break_if; simpl; rewrite IH; ring.
Qed.

Lemma cell_count (a b : string) (ws : list Wager) :
  List.length (filter (fun w => (from_user w =? a)%string
                                && (to_user w =? b)%string && is_open w) ws)
  = cellCount a b ws.
Proof.
  induction ws as [|w ws IH]; simpl; [reflexivity|].
  break_if; simpl; rewrite IH; reflexivity.
Qed.

Lemma cell_open_only (a b : string) (ws : list Wager) :
  getCellData (filter is_open ws) a b = getCellData ws a b.
Proof.
  unfold getCellData.
  assert (E : filter (fun w => (from_user w =? a)%string
                               && (to_user w =? b)%string && is_open w)
                (filter is_open ws)
              = filter (fun w => (from_user w =? a)%string
                                 && (to_user w =? b)%string && is_open w) ws).
  { rewrite filter_filter. apply filter_ext; intros w.
    destruct (is_open w); simpl; [reflexivity|].
    rewrite andb_false_r. reflexivity. }
  rewrite E. reflexivity.
Qed.

(** C6.  For every wager collection and users [a], [b], the amount of
    [cell(a,b)] is the sum of the amounts of exactly the open wagers
    placed by [a] against [b], and its count is the number of such
    wagers; resolved wagers never contribute; and the aggregation is
    directional: there is a collection on which [cell(a,b)] and
    [cell(b,a)] differ. *)
Theorem cell_is_directional_open_sum :
  forall (ws : list Wager) (a b : string),
    cell_amount (getCellData ws a b) == cellSum a b ws
    /\ count (getCellData ws a b) = cellCount a b ws
    /\ getCellData (filter is_open ws) a b = getCellData ws a b
    /\ exists (ws' : list Wager) (a' b' : string),
         ~ cell_amount (getCellData ws' a' b') == cell_amount (getCellData ws' b' a')
         /\ count (getCellData ws' a' b') <> count (getCellData ws' b' a').
Proof.
  intros ws a b. split; [|split; [|split]].
  - unfold getCellData; simpl. rewrite cell_fold. ring.
  - unfold getCellData; simpl. apply cell_count.
  - apply cell_open_only.
  - exists Samples.scenario, "A"%string, "B"%string. split.
    + intros H; vm_compute in H; discriminate H.
    + vm_compute. discriminate.
Qed.

Lemma between_unfiltered (ws : list Wager) (a b : string) :
  getWagersBetweenUsers ws a b false = filter (pairEither a b) ws.
Proof.
  unfold getWagersBetweenUsers. apply filter_ext; intros w.
  unfold pairEither. simpl. apply andb_true_r.
Qed.

Lemma pairEither_iff (a b : string) (w : Wager) :
  pairEither a b w = true <->
  (from_user w = a /\ to_user w = b) \/ (from_user w = b /\ to_user w = a).
Proof.
  unfold pairEither.
  rewrite orb_true_iff, !andb_true_iff, !String.eqb_eq. reflexivity.
Qed.

Lemma is_open_iff (w : Wager) : is_open w = true <-> status w = open.
Proof.
  unfold is_open. destruct (status w); simpl; split; congruence.
Qed.

Lemma between_counts (ws : list Wager) (a b : string) :
  (List.length (getWagersBetweenUsers ws a b false)
   + List.length (filter (fun w => (from_user w =? a)%string
                                   && (to_user w =? b)%string
                                   && ((from_user w =? b)%string
                                       && (to_user w =? a)%string)) ws)
   = List.length (selectedWagers ws a b)
     + List.length (selectedWagers ws b a))%nat.
Proof.
  rewrite between_unfiltered. unfold selectedWagers, pairEither.
  induction ws as [|w ws IH]; simpl; [reflexivity|].
  destruct ((from_user w =? a)%string && (to_user w =? b)%string),
           ((from_user w =? b)%string && (to_user w =? a)%string);
    simpl; lia.
Qed.

(** C7.  For every wager collection and users [a], [b], [between(a,b)]
    without the open-only filter returns exactly the wagers of the
    collection whose sides are [a] and [b] in either direction, whatever
    their status, that is, the union of the directional selections
    [a→b] and [b→a] (with their multiplicities); with [openOnly = true]
    it returns exactly those of them whose status is [open]. *)
Theorem between_is_either_direction :
  forall (ws : list Wager) (a b : string),
    (forall w, In w (getWagersBetweenUsers ws a b false) <->
               In w ws /\ ((from_user w = a /\ to_user w = b)
                           \/ (from_user w = b /\ to_user w = a)))
    /\ (forall w, In w (getWagersBetweenUsers ws a b false) <->
                  In w (selectedWagers ws a b) \/ In w (selectedWagers ws b a))
    /\ (List.length (getWagersBetweenUsers ws a b false)
         + List.length (filter (fun w => (from_user w =? a)%string
                                         && (to_user w =? b)%string
                                         && ((from_user w =? b)%string
                                             && (to_user w =? a)%string)) ws)
         = List.length (selectedWagers ws a b)
           + List.length (selectedWagers ws b a))%nat
    /\ getWagersBetweenUsers ws a b true
        = filter is_open (getWagersBetweenUsers ws a b false)
    /\ (forall w, In w (getWagersBetweenUsers ws a b true) <->
                  In w (getWagersBetweenUsers ws a b false) /\ status w = open).
Proof.
  intros ws a b.
  assert (Hopen : getWagersBetweenUsers ws a b true
                  = filter is_open (getWagersBetweenUsers ws a b false)).
  { rewrite between_unfiltered, filter_filter.
    unfold getWagersBetweenUsers. apply filter_ext; intros w. reflexivity. }
  split; [|split; [|split; [|split]]].
  - intros w. rewrite between_unfiltered, filter_In, pairEither_iff.
    reflexivity.
  - intros w. rewrite between_unfiltered. unfold selectedWagers.
    rewrite !filter_In. unfold pairEither. rewrite orb_true_iff. tauto.
  - apply between_counts.
  - exact Hopen.
  - intros w. rewrite Hopen, filter_In, is_open_iff. reflexivity.
Qed.

(** *** Win-loss-push record *)

Lemma recordStep_total (u : string) (r : UserRecord) (w : Wager) :
  (wins (recordStep u r w) + losses (recordStep u r w)
   + pushes (recordStep u r w) = S (wins r + losses r + pushes r))%nat.
Proof.
  unfold recordStep. repeat break_if; simpl; lia.
Qed.

Lemma record_fold (u : string) (l : list Wager) (r : UserRecord) :
  let r' := fold_left (recordStep u) l r in
  (wins r' + losses r' + pushes r'
   = wins r + losses r + pushes r + List.length l)%nat.
Proof.
  revert r; induction l as [|w l IH]; intros r; simpl.
  - lia.
  - specialize (IH (recordStep u r w)). simpl in IH. rewrite IH.
    rewrite recordStep_total. lia.
Qed.

Lemma resolvedInvolving_length (u : string) (ws : list Wager) :
  List.length (filter (involves u) ws) = resolvedInvolving u ws.
Proof.
  induction ws as [|w ws IH]; simpl; [reflexivity|].
  unfold involves at 1. break_if; simpl; rewrite IH; reflexivity.
Qed.

(** C9.  For every user [u] and every wager collection, the record of
    [u] satisfies [wins + losses + pushes =] the number of resolved wagers
    in which [u] appears as placer or counterparty: each of them is
    counted in exactly one of the three tallies. *)
Theorem record_counts_every_resolved_wager :
  forall (ws : list Wager) (u : string),
    (wins (calculateUserRecord ws u) + losses (calculateUserRecord ws u)
     + pushes (calculateUserRecord ws u) = resolvedInvolving u ws)%nat.
Proof.
  intros ws u. unfold calculateUserRecord.
  pose proof (record_fold u (filter (involves u) ws)
                {| wins := 0; losses := 0; pushes := 0 |}) as H.
  simpl in H. rewrite H. apply resolvedInvolving_length.
Qed.

(** *** Heatmap *)

Lemma pushRow_flat_map (ws : list Wager) (rowUser : string) (amounts : list Q) :
  pushRow ws rowUser amounts
  = amounts ++
    flat_map (fun colUser =>
      if negb (rowUser =? colUser)%string
         && Qltb 0 (cell_amount (getCellData ws rowUser colUser))
      then [cell_amount (getCellData ws rowUser colUser)] else []) USERS.
Proof.
  unfold pushRow. rewrite <- fold_left_push. apply fold_left_same.
  intros acc colUser. cbv zeta.
  generalize (cell_amount (getCellData ws rowUser colUser)) as amt. intros amt.
  destruct (negb (rowUser =? colUser)%string), (Qltb 0 amt); cbn [andb];
    try reflexivity; symmetry; apply app_nil_r.
Qed.

Lemma cellAmounts_positiveCells (ws : list Wager) :
  cellAmounts ws = positiveCells USERS ws.
Proof.
  unfold cellAmounts, positiveCells, cellsWhere.
  rewrite <- (app_nil_l (flat_map _ USERS)). rewrite <- fold_left_push.
  apply fold_left_same. intros acc rowUser. apply pushRow_flat_map.
Qed.

Lemma cellSum_nonneg (a b : string) (ws : list Wager) :
  Forall (fun w => 0 <= amount w) ws -> 0 <= cellSum a b ws.
Proof.
  induction 1 as [|w ws Hw Hws IH]; simpl; [apply Qle_refl|].
  break_if; lra.
Qed.

Lemma positive_is_nonzero (c : Q) :
  0 <= c -> Qltb 0 c = negb (Qeq_bool c 0).
Proof.
  intros Hc. unfold Qltb. f_equal.
  destruct (Qle_bool c 0) eqn:E1, (Qeq_bool c 0) eqn:E2; try reflexivity.
  - apply Qle_bool_iff in E1.
    assert (E : c == 0) by (apply Qle_antisym; assumption).
    apply Qeq_bool_iff in E. congruence.
  - apply Qeq_bool_iff in E2.
    assert (L : c <= 0) by (rewrite E2; apply Qle_refl).
    apply Qle_bool_iff in L. congruence.
Qed.

(** With non-negative stakes, the positive cells are the nonzero cells. *)
Lemma positiveCells_nonzeroCells (roster : list string) (ws : list Wager) :
  Forall (fun w => 0 <= amount w) ws ->
  positiveCells roster ws = nonzeroCells roster ws.
Proof.
  intros Hws. unfold positiveCells, nonzeroCells, cellsWhere.
  apply flat_map_ext; intros rowUser. apply flat_map_ext; intros colUser.
  rewrite positive_is_nonzero; [reflexivity|].
  unfold getCellData; simpl. rewrite cell_fold.
  pose proof (cellSum_nonneg rowUser colUser ws Hws). lra.
Qed.

Lemma Qltb_lt (a b : Q) : Qltb a b = true <-> a < b.
Proof.
  unfold Qltb. rewrite negb_true_iff. split.
  - intros H. apply Qnot_le_lt. intros L.
    apply Qle_bool_iff in L. congruence.
  - intros H. destruct (Qle_bool b a) eqn:E; [|reflexivity].
    apply Qle_bool_iff in E. exfalso. exact (Qlt_not_le _ _ H E).
Qed.

Lemma cellAmounts_positive (ws : list Wager) :
  Forall (fun v => 0 < v) (cellAmounts ws).
Proof.
  rewrite cellAmounts_positiveCells. apply Forall_forall. intros v Hv.
  unfold positiveCells, cellsWhere in Hv.
  apply in_flat_map in Hv. destruct Hv as [rowUser [_ Hv]].
  apply in_flat_map in Hv. destruct Hv as [colUser [_ Hv]].
  revert Hv.
  generalize (cell_amount (getCellData ws rowUser colUser)) as amt. intros amt.
  destruct (negb (rowUser =? colUser)%string), (Qltb 0 amt) eqn:E;
    cbn [andb]; intros Hv; try (destruct Hv; fail).
  destruct Hv as [<-|[]]. apply Qltb_lt. exact E.
Qed.

(** A positive entry is truthy, so [||] keeps it. *)
Lemma jsOr_positive (v d : Q) : 0 < v -> jsOr (Some v) d = v.
Proof.
  intros Hpos. simpl.
  destruct (Qeq_bool v 0) eqn:E; [|reflexivity].
  apply Qeq_bool_iff in E.
  rewrite E in Hpos. exfalso. exact (Qlt_irrefl 0 Hpos).
Qed.

(** The two indices lie inside a non-empty array. *)
Lemma tercile_indices (n : nat) :
  (0 < n -> n / 3 < n /\ n * 2 / 3 < n /\ n / 3 <= n * 2 / 3)%nat.
Proof.
  intros Hn. repeat split.
  - apply Nat.Div0.div_lt_upper_bound. lia.
  - apply Nat.Div0.div_lt_upper_bound. lia.
  - apply Nat.Div0.div_le_mono. lia.
Qed.

(** What [thresholdsOf] returns on positive amounts. *)
Lemma thresholdsOf_indices (amounts : list Q) :
  Forall (fun v => 0 < v) amounts ->
  let sorted := sortAscending amounts in
  let n := List.length sorted in
  match sorted with
  | [] => thresholdsOf amounts = {| low := 0; medium := 0 |}
  | _ :: _ =>
      nth_error sorted (n / 3) = Some (low (thresholdsOf amounts))
      /\ nth_error sorted (n * 2 / 3) = Some (medium (thresholdsOf amounts))
  end.
Proof.
  intros Hpos sorted n.
  assert (Hlen : List.length sorted = List.length amounts)
    by apply sortBy_length.
  assert (Hsp : Forall (fun v => 0 < v) sorted).
  { eapply Permutation_Forall; [symmetry; apply sortAscending_perm|exact Hpos]. }
  unfold thresholdsOf. fold sorted. fold n.
  destruct sorted as [|s0 sorted'] eqn:Es.
  - simpl in Hlen. rewrite <- Hlen. reflexivity.
  - assert (Hn : (0 < n)%nat) by (unfold n; simpl; lia).
    destruct (tercile_indices n Hn) as [Hlo [Hme _]].
    destruct (nth_error (s0 :: sorted') (n / 3)) as [vl|] eqn:El;
      [|apply nth_error_None in El; fold n in El; lia].
    destruct (nth_error (s0 :: sorted') (n * 2 / 3)) as [vm|] eqn:Em;
      [|apply nth_error_None in Em; fold n in Em; lia].
    replace (List.length amounts =? 0)%nat with false
      by (symmetry; apply Nat.eqb_neq; rewrite <- Hlen; simpl; lia).
    rewrite Forall_forall in Hsp.
    pose proof (Hsp vl (nth_error_In _ _ El)) as Pl.
    pose proof (Hsp vm (nth_error_In _ _ Em)) as Pm.
    cbn [low medium].
    rewrite !(jsOr_positive vl) by exact Pl.
    rewrite (jsOr_positive vm) by exact Pm.
    split; reflexivity.
Qed.

Lemma thresholdsOf_valueAt (amounts : list Q) :
  Forall (fun v => 0 < v) amounts ->
  let sorted := sortAscending amounts in
  let n := List.length sorted in
  low (thresholdsOf amounts) = valueAt sorted (n / 3) (hd 0 sorted)
  /\ medium (thresholdsOf amounts)
      = valueAt sorted (n * 2 / 3) (low (thresholdsOf amounts)).
Proof.
  intros Hpos sorted n.
  pose proof (thresholdsOf_indices amounts Hpos) as H. cbv zeta in H.
  fold sorted in H. fold n in H. unfold valueAt.
  destruct sorted as [|s0 sorted'] eqn:Es.
  - rewrite H. simpl. split; reflexivity.
  - destruct H as [Hl Hm]. rewrite Hl, Hm. split; reflexivity.
Qed.

Lemma thresholdsOf_ordered (amounts : list Q) :
  Forall (fun v => 0 < v) amounts ->
  0 <= low (thresholdsOf amounts)
  /\ low (thresholdsOf amounts) <= medium (thresholdsOf amounts).
Proof.
  intros Hpos.
  pose proof (thresholdsOf_indices amounts Hpos) as H. cbv zeta in H.
  pose proof (sortAscending_sorted amounts) as Hs.
  assert (Hsp : Forall (fun v => 0 < v) (sortAscending amounts)).
  { eapply Permutation_Forall; [symmetry; apply sortAscending_perm|exact Hpos]. }
  destruct (sortAscending amounts) as [|s0 sorted'] eqn:Es.
  - rewrite H. simpl. split; apply Qle_refl.
  - destruct H as [Hl Hm]. split.
    + apply Qlt_le_weak. apply nth_error_In in Hl.
      rewrite Forall_forall in Hsp. apply Hsp, Hl.
    + assert (Hn : (0 < List.length (s0 :: sorted'))%nat) by (simpl; lia).
      destruct (tercile_indices _ Hn) as [_ [_ Hle]].
      exact (sorted_nth_error_le _ Hs _ _ _ _ Hle Hl Hm).
  Qed.

(** The buckets of [getCellHeatmapClass] for thresholds in order. *)
Lemma heatmap_classes (amt : Q) (t : HeatmapThresholds) :
  0 <= amt -> 0 <= low t -> low t <= medium t ->
  (getCellHeatmapClass amt t = HeatNone <-> amt == 0)
  /\ (getCellHeatmapClass amt t = HeatLow <-> 0 < amt /\ amt <= low t)
  /\ (getCellHeatmapClass amt t = HeatMedium <-> low t < amt /\ amt <= medium t)
  /\ (getCellHeatmapClass amt t = HeatHigh <-> medium t < amt).
Proof.
  intros Ha Hl Hm. unfold getCellHeatmapClass.
  destruct (Qeq_bool amt 0) eqn:E0.
  { apply Qeq_bool_iff in E0.
    repeat split; try discriminate; try (intros; exact E0); intros; lra. }
  assert (N0 : ~ amt == 0).
  { intros H. apply Qeq_bool_iff in H. congruence. }
  destruct (Qle_bool amt (low t)) eqn:E1.
  { apply Qle_bool_iff in E1.
    repeat split; try discriminate; try reflexivity; intros; lra. }
  assert (N1 : low t < amt).
  { apply Qnot_le_lt. intros H. apply Qle_bool_iff in H. congruence. }
  destruct (Qle_bool amt (medium t)) eqn:E2.
  { apply Qle_bool_iff in E2.
    repeat split; try discriminate; try reflexivity; intros; lra. }
  assert (N2 : medium t < amt).
  { apply Qnot_le_lt. intros H. apply Qle_bool_iff in H. congruence. }
  repeat split; try discriminate; try reflexivity; intros; lra.
Qed.

(** C5, as the code has it.  For every wager collection, let [sorted]
    be the positive open-only directional cell amounts over the ordered
    pairs of distinct roster users (the nonzero ones, stakes being
    non-negative), sorted ascending, and [n] their number.  The low
    threshold is the value at index [⌊n/3⌋] (falling back to the minimum)
    and the medium threshold the value at index [⌊2n/3⌋] (falling back to
    low); when [n > 0] both indices are occupied, and when [n = 0] both
    thresholds are 0.  A non-negative amount is classified none iff it is
    0, low iff [0 < amount ≤ low], medium iff [low < amount ≤ medium] and
    high iff [amount > medium].  For the amounts [10,10,20,30,100]:
    low = 10, medium = 30, and 15 is medium (not low), 30 is medium, 100 is
    high, 0 is none. *)
Theorem heatmap_thresholds_and_buckets (ws : list Wager) (amt : Q) :
  0 <= amt ->
  let amounts := cellAmounts ws in
  let sorted := sortAscending amounts in
  let n := List.length sorted in
  let t := heatmapThresholds ws in
  amounts = positiveCells USERS ws
  /\ (Forall (fun w => 0 <= amount w) ws -> amounts = nonzeroCells USERS ws)
  /\ Permutation sorted amounts
  /\ StronglySorted Qle sorted
  /\ low t = valueAt sorted (n / 3) (hd 0 sorted)
  /\ medium t = valueAt sorted (n * 2 / 3) (low t)
  /\ match sorted with
     | [] => t = {| low := 0; medium := 0 |}
     | _ :: _ => nth_error sorted (n / 3) = Some (low t)
                 /\ nth_error sorted (n * 2 / 3) = Some (medium t)
     end
  /\ (getCellHeatmapClass amt t = HeatNone <-> amt == 0)
  /\ (getCellHeatmapClass amt t = HeatLow <-> 0 < amt /\ amt <= low t)
  /\ (getCellHeatmapClass amt t = HeatMedium <-> low t < amt /\ amt <= medium t)
  /\ (getCellHeatmapClass amt t = HeatHigh <-> medium t < amt)
  /\ cellAmounts Samples.board = [10; 30; 10; 20; 100]
  /\ sortAscending [10; 30; 10; 20; 100] = [10; 10; 20; 30; 100]
  /\ thresholdsOf [10; 10; 20; 30; 100] = {| low := 10; medium := 30 |}
  /\ heatmapThresholds Samples.board = {| low := 10; medium := 30 |}
  /\ getCellHeatmapClass 15 {| low := 10; medium := 30 |} = HeatMedium
  /\ getCellHeatmapClass 30 {| low := 10; medium := 30 |} = HeatMedium
  /\ getCellHeatmapClass 100 {| low := 10; medium := 30 |} = HeatHigh
  /\ getCellHeatmapClass 0 {| low := 10; medium := 30 |} = HeatNone.
Proof.
  intros Hamt amounts sorted n t.
  pose proof (cellAmounts_positive ws) as Hpos. fold amounts in Hpos.
  pose proof (thresholdsOf_valueAt amounts Hpos) as [Hlow Hmed].
  pose proof (thresholdsOf_indices amounts Hpos) as Hidx.
  pose proof (thresholdsOf_ordered amounts Hpos) as [H0 Hlm].
  pose proof (heatmap_classes amt t Hamt H0 Hlm) as [Cn [Cl [Cm Ch]]].
  split; [apply cellAmounts_positiveCells|].
  split; [intros Hws; unfold amounts; rewrite cellAmounts_positiveCells;
          apply positiveCells_nonzeroCells, Hws|].
  split; [apply sortAscending_perm|].
  split; [apply sortAscending_sorted|].
  split; [exact Hlow|]. split; [exact Hmed|]. split; [exact Hidx|].
  split; [exact Cn|]. split; [exact Cl|]. split; [exact Cm|].
  split; [exact Ch|].
  repeat split; vm_compute; reflexivity.
Qed.

Lemma heatmap_thresholds_and_buckets_witness :
  0 <= 15
  /\ cellAmounts Samples.board = nonzeroCells USERS Samples.board
  /\ heatmapThresholds Samples.board = {| low := 10; medium := 30 |}
  /\ (getCellHeatmapClass 15 (heatmapThresholds Samples.board) = HeatMedium
      <-> low (heatmapThresholds Samples.board) < 15
          /\ 15 <= medium (heatmapThresholds Samples.board)).
Proof.
  assert (H : 0 <= 15) by (intros C; discriminate C).
  split; [exact H|].
  pose proof (heatmap_thresholds_and_buckets Samples.board 15 H) as T.
  cbv zeta in T.
  split; [|split; [apply T | apply T]].
  destruct T as [_ [N _]]. apply N.
  repeat constructor; intros C; discriminate C.
Defined.

(** C5 as stated fails on its own example: with low = 10 and medium = 30
    the amount 15 exceeds low, so it falls in the medium bucket. *)
Lemma heatmap_15_is_not_low :
  thresholdsOf [10; 10; 20; 30; 100] = {| low := 10; medium := 30 |}
  /\ getCellHeatmapClass 15 (thresholdsOf [10; 10; 20; 30; 100]) = HeatMedium
  /\ getCellHeatmapClass 15 (thresholdsOf [10; 10; 20; 30; 100]) <> HeatLow
  /\ getCellHeatmapClass 15 (heatmapThresholds Samples.board) <> HeatLow.
Proof.
  repeat split; try (vm_compute; discriminate).
Qed.

(** *** Activity feed *)

Lemma present_truthy (o : option string) :
  present o = if truthy o then o else None.
Proof.
  destruct o as [s|]; [|reflexivity].
  destruct s; reflexivity.
Qed.

Lemma createdActivity_events (w : Wager) :
  createdActivity w = createdEvents w.
Proof.
  unfold createdActivity, createdEvents. rewrite present_truthy.
  destruct (created_at w) as [ts|]; [|reflexivity].
  destruct (truthy (Some ts)); reflexivity.
Qed.

Lemma resolvedTimestamp_resolvedAt (now : string) (w : Wager) :
  resolvedTimestamp now w = resolvedAt now w.
Proof.
  unfold resolvedTimestamp, resolvedAt, strOr. rewrite !present_truthy.
  destruct (truthy (updated_at w)) eqn:Eu.
  - destruct (updated_at w); [reflexivity | discriminate Eu].
  - destruct (truthy (created_at w)) eqn:Ec; [|reflexivity].
    destruct (created_at w); [reflexivity | discriminate Ec].
Qed.

Lemma resolvedActivity_events (now : string) (w : Wager) :
  resolvedActivity now w = resolvedEvents now w.
Proof.
  unfold resolvedActivity, resolvedEvents, is_resolved.
  rewrite resolvedTimestamp_resolvedAt.
  destruct (result w) as [[| |]|], (status w); reflexivity.
Qed.

Lemma activities_flat_map (now : string) (ws : list Wager) :
  fold_left (pushActivities now) ws [] = flat_map (wagerEvents now) ws.
Proof.
  rewrite <- (app_nil_l (flat_map _ ws)). rewrite <- fold_left_push.
  apply fold_left_same. intros acc w.
  unfold pushActivities, wagerEvents. symmetry. apply app_assoc.
Qed.

Lemma newerFirst_total (getTime : string -> Z) (a b : ActivityItem) :
  newerFirst getTime a b = false -> newerFirst getTime b a = true.
Proof.
  unfold newerFirst. rewrite Z.leb_gt, Z.leb_le. lia.
Qed.

Lemma newerFirst_trans (getTime : string -> Z) (a b c : ActivityItem) :
  newerFirst getTime a b = true -> newerFirst getTime b c = true ->
  newerFirst getTime a c = true.
Proof.
  unfold newerFirst. rewrite !Z.leb_le. lia.
Qed.

Lemma newerFirst_notOlder (getTime : string -> Z) (a b : ActivityItem) :
  newerFirst getTime a b = true <-> notOlder getTime a b.
Proof.
  unfold newerFirst, notOlder. rewrite Z.leb_le. lia.
Qed.

Lemma sorted_newest_first (getTime : string -> Z) (l : list ActivityItem) :
  StronglySorted (notOlder getTime) (sortBy (newerFirst getTime) l).
Proof.
  pose proof (sortBy_sorted (newerFirst getTime) (newerFirst_total getTime)
                (newerFirst_trans getTime) l) as H.
  induction H as [|x r Hs IH Hx]; constructor; [exact IH|].
  eapply Forall_impl; [|exact Hx].
  intros y Hy. apply newerFirst_notOlder. exact Hy.
Qed.

(** Cutting a sorted list: the kept part is sorted and nothing that is
    dropped is more recent than something kept. *)
Lemma sorted_prefix {A : Type} (R : A -> A -> Prop) (k : nat) (l : list A) :
  StronglySorted R l ->
  StronglySorted R (firstn k l)
  /\ forall x y, In x (firstn k l) -> In y (skipn k l) -> R x y.
Proof.
  intros H; revert k; induction H as [|a l Hs IH Ha]; intros k.
  - rewrite firstn_nil, skipn_nil. split; [constructor|intros x y []].
  - destruct k as [|k]; simpl.
    + split; [constructor|intros x y []].
    + destruct (IH k) as [IH1 IH2]. split.
      * constructor; [exact IH1|].
        rewrite Forall_forall in *. intros x Hx.
        apply Ha. rewrite <- (firstn_skipn k l). apply in_or_app. left; exact Hx.
      * intros x y [<-|Hx] Hy.
        -- rewrite Forall_forall in Ha. apply Ha.
           rewrite <- (firstn_skipn k l). apply in_or_app. right; exact Hy.
        -- apply IH2; assumption.
Qed.

(** C8, as the code has it.  For every wager collection, the events are
    merged in the order of the collection: for each wager whose
    [createdAt] is present, a created event timestamped [createdAt], and,
    if the wager is resolved and its result is recorded, a resolved event
    timestamped [updatedAt] (falling back to [createdAt], then the
    current time) whose outcome word is win for [from], loss for [to] and
    push for [push].  The feed is the merged events sorted by timestamp
    descending and cut to the first 8: it is sorted, it holds
    [min 8 (number of events)] of the events, and no event left out is
    more recent than an event of the feed. *)
Theorem activity_feed_derivation :
  forall (getTime : string -> Z) (now : string) (ws : list Wager),
    let events := flat_map (fun w => createdEvents w ++ resolvedEvents now w) ws in
    let sorted := sortBy (newerFirst getTime) events in
    let feed := deriveActivityItems getTime now ws in
    fold_left (pushActivities now) ws [] = events
    /\ Permutation sorted events
    /\ StronglySorted (notOlder getTime) sorted
    /\ feed = firstn 8 sorted
    /\ StronglySorted (notOlder getTime) feed
    /\ List.length feed = Nat.min 8 (List.length events)
    /\ (forall e e', In e feed -> In e' (skipn 8 sorted) -> notOlder getTime e e')
    /\ map act_id (deriveActivityItems Samples.toyTime "now" Samples.dated)
       = ["d2-resolved"; "d1-created"; "d2-created"]%string
    /\ map act_result (deriveActivityItems Samples.toyTime "now" Samples.dated)
       = [Some loss; None; None].
Proof.
  intros getTime now ws events sorted feed.
  assert (E : fold_left (pushActivities now) ws [] = events).
  { rewrite activities_flat_map. unfold events. apply flat_map_ext.
    intros w. unfold wagerEvents.
    rewrite createdActivity_events, resolvedActivity_events. reflexivity. }
  assert (F : feed = firstn 8 sorted).
  { unfold feed, deriveActivityItems. cbv zeta. rewrite E. reflexivity. }
  pose proof (sorted_newest_first getTime events) as S. fold sorted in S.
  destruct (sorted_prefix (notOlder getTime) 8 sorted S) as [S1 S2].
  split; [exact E|].
  split; [apply sortBy_perm|].
  split; [exact S|].
  split; [exact F|].
  split; [rewrite F; exact S1|].
  split; [rewrite F, length_firstn; unfold sorted;
          rewrite sortBy_length; reflexivity|].
  split; [rewrite F; exact S2|].
  split; vm_compute; reflexivity.
Qed.

(** C8 as stated fails for a wager that carries no [createdAt]: the loop
    skips its created event, so the feed of a collection made of that one
    wager is empty. *)
Lemma activity_undated_wager_has_no_created_event :
  In Samples.undated [Samples.undated]
  /\ deriveActivityItems Samples.toyTime "now" [Samples.undated] = []
  /\ ~ exists e, In e (deriveActivityItems Samples.toyTime "now" [Samples.undated])
                 /\ type e = created.
Proof.
  split; [left; reflexivity|]. split; [reflexivity|].
  intros [e [He _]]. exact He.
Qed.

End PageFacts.

(** ** Properties of the in-memory variant with signed odds *)
Module SignedFacts.
Import Signed.

Lemma Qltb_true (a b : Q) : a < b -> Qltb a b = true.
Proof.
  intros H. unfold Qltb. destruct (Qle_bool b a) eqn:E; [|reflexivity].
  apply Qle_bool_iff in E. exfalso. exact (Qlt_not_le _ _ H E).
Qed.

Lemma fold_left_snoc {A B : Type} (f : A -> B -> A) (l : list B) (x : B) (a : A) :
  fold_left f (l ++ [x]) a = f (fold_left f l a) x.
Proof. rewrite fold_left_app. reflexivity. Qed.

Lemma exposure_snoc (ws : list Wager) (w : Wager) (u : string) :
  calculateUserExposure (ws ++ [w]) u
  == calculateUserExposure ws u
     + (if (from w =? u)%string && is_open w
        then amount w * getOddsMultiplier (odds w) else 0).
Proof.
  unfold calculateUserExposure. rewrite filter_app. simpl.
  destruct ((from w =? u)%string && is_open w).
  - rewrite fold_left_snoc. reflexivity.
  - rewrite app_nil_r. ring.
Qed.

Lemma returns_snoc (ws : list Wager) (w : Wager) (u : string) :
  calculateUserReturns (ws ++ [w]) u
  == calculateUserReturns ws u + returnContribution (fromProfit w) u w.
Proof.
  unfold calculateUserReturns, returnContribution. rewrite filter_app. simpl.
  destruct (involves u w); simpl.
  - rewrite fold_left_snoc. unfold returnsStep, result_is.
    destruct (result w) as [[| |]|], (from w =? u)%string; simpl; ring.
  - rewrite app_nil_r. ring.
Qed.

Lemma returnContribution_profit (p q : Q) (u : string) (w : Wager) :
  p == q -> returnContribution p u w == returnContribution q u w.
Proof.
  intros E. unfold returnContribution.
  destruct (negb (involves u w)); [reflexivity|].
  destruct (result w) as [[| |]|], (from w =? u)%string;
    try reflexivity; try exact E; rewrite E; reflexivity.
Qed.

(** C3, as the code has it.  In the signed-odds variant, for every wager
    with [odds < 0]: an open wager placed by a user adds [amount × 1] to
    that user's exposure ([getOddsMultiplier] is 1 for negative odds, not
    [100/|odds|]); the from-side profit used in realized returns is
    [amount × 100/|odds|], and a resolved wager changes the returns of a
    user by its contribution computed with that profit. *)
Theorem negative_odds_multipliers (ws : list Wager) (w : Wager) (u : string) :
  odds w < 0 ->
  getOddsMultiplier (odds w) == 1
  /\ calculateUserExposure (ws ++ [w]) u
     == calculateUserExposure ws u
        + (if (from w =? u)%string && is_open w then amount w else 0)
  /\ fromProfit w == amount w * toStakeMultiplier (odds w)
  /\ calculateUserReturns (ws ++ [w]) u
     == calculateUserReturns ws u
        + returnContribution (amount w * toStakeMultiplier (odds w)) u w.
Proof.
  intros Hneg. pose proof (Qltb_true _ _ Hneg) as Hb.
  assert (Hm : getOddsMultiplier (odds w) == 1).
  { unfold getOddsMultiplier. rewrite Hb. reflexivity. }
  assert (Hp : fromProfit w == amount w * toStakeMultiplier (odds w)).
  { unfold fromProfit, toStakeMultiplier. rewrite Hb. reflexivity. }
  split; [exact Hm|]. split; [|split; [exact Hp|]].
  - rewrite exposure_snoc.
    destruct ((from w =? u)%string && is_open w); [|reflexivity].
    rewrite Hm. ring.
  - rewrite returns_snoc.
    rewrite (returnContribution_profit _ _ u w Hp). reflexivity.
Qed.

Lemma negative_odds_multipliers_witness :
  odds Samples.dodgers < 0
  /\ calculateUserExposure ([Samples.dodgers] ++ [Samples.chiefs]) "Will"
     == calculateUserExposure [Samples.dodgers] "Will" + 100
  /\ calculateUserReturns ([Samples.chiefs] ++ [Samples.dodgers]) "John"
     == calculateUserReturns [Samples.chiefs] "John"
        + 80 * (100 / 110).
Proof.
  assert (H : odds Samples.dodgers < 0) by reflexivity.
  assert (H' : odds Samples.chiefs < 0) by reflexivity.
  split; [exact H|]. split.
  - apply (negative_odds_multipliers [Samples.dodgers] Samples.chiefs "Will" H').
  - destruct (negative_odds_multipliers [Samples.chiefs] Samples.dodgers "John" H)
      as [_ [_ [_ R]]].
    rewrite R. reflexivity.
Defined.

(** C3 as stated fails for exposure: the open wager Will→John of 100 at
    −110 gives Will an exposure of 100, not [100 × 100/110]. *)
Lemma negative_odds_exposure_is_the_stake :
  odds Samples.chiefs < 0
  /\ calculateUserExposure [Samples.chiefs] "Will" == 100
  /\ ~ calculateUserExposure [Samples.chiefs] "Will"
       == amount Samples.chiefs * toStakeMultiplier (odds Samples.chiefs).
Proof.
  split; [reflexivity|]. split; [reflexivity|].
  intros H; vm_compute in H; discriminate H.
Qed.

(** *** Resolving a wager *)

Lemma resolve_pointwise (ws : list Wager) (wagerId : string) (r : Result) :
  Forall2 (resolvedFrom wagerId r) ws (handleResolveWager ws wagerId r).
Proof.
  induction ws as [|w ws IH]; simpl; constructor; [|exact IH].
  unfold resolvedFrom. destruct (id w =? wagerId)%string; simpl.
  - repeat split.
  - reflexivity.
Qed.

(** C10.  Resolving a wager is a frame-preserving update: for every
    wager collection, wager id present in it and result [r], the new
    collection has the same length, position by position the wager with
    that id has status [resolved] and result [r] with its id, from, to,
    amount, odds and description unchanged, every other wager is
    unchanged in all fields, and a resolved wager with that id and result
    is in the new collection. *)
Theorem resolve_is_frame_preserving
    (ws : list Wager) (wagerId : string) (r : Result) :
  In wagerId (map id ws) ->
  List.length (handleResolveWager ws wagerId r) = List.length ws
  /\ Forall2 (resolvedFrom wagerId r) ws (handleResolveWager ws wagerId r)
  /\ exists w', In w' (handleResolveWager ws wagerId r)
                /\ id w' = wagerId /\ status w' = resolved /\ result w' = Some r.
Proof.
  intros Hin. split; [apply length_map|]. split; [apply resolve_pointwise|].
  apply in_map_iff in Hin. destruct Hin as [w [Hid Hw]].
  exists {| id := id w; from := from w; to := to w; amount := amount w;
            odds := odds w; description := description w;
            status := resolved; result := Some r |}.
  split; [|simpl; auto].
  unfold handleResolveWager. apply in_map_iff. exists w. split; [|exact Hw].
  rewrite Hid, String.eqb_refl. reflexivity.
Qed.

Lemma resolve_is_frame_preserving_witness :
  In "s1"%string (map id [Samples.chiefs; Samples.dodgers])
  /\ List.length (handleResolveWager [Samples.chiefs; Samples.dodgers] "s1" ResultTo)
     = 2%nat
  /\ Forall2 (resolvedFrom "s1" ResultTo) [Samples.chiefs; Samples.dodgers]
       (handleResolveWager [Samples.chiefs; Samples.dodgers] "s1" ResultTo).
Proof.
  assert (H : In "s1"%string (map id [Samples.chiefs; Samples.dodgers]))
    by (left; reflexivity).
  split; [exact H|].
  destruct (resolve_is_frame_preserving
              [Samples.chiefs; Samples.dodgers] "s1" ResultTo H) as [L [F _]].
  split; [exact L | exact F].
Defined.

End SignedFacts.

(** ** Further properties of the current page *)
Module PageExtras.
Import Page.

(** *** Undirected cell amount, total wagered, unknown users *)

Lemma between_open_filter (ws : list Wager) (a b : string) :
  getWagersBetweenUsers ws a b true
  = filter (fun w => pairEither a b w && is_open w) ws.
Proof.
  unfold getWagersBetweenUsers, pairEither. apply filter_ext; intros w.
  reflexivity.
Qed.

Lemma cellAmount_fold (a b : string) (ws : list Wager) (acc : Q) :
  fold_left (fun sum wager => sum + amount wager)
    (filter (fun w => pairEither a b w && is_open w) ws) acc
  == acc + (if (a =? b)%string then cellSum a a ws
            else cellSum a b ws + cellSum b a ws).
Proof.
  revert acc; induction ws as [|w ws IH]; intros acc; simpl.
  - destruct (a =? b)%string; ring.
  - destruct (pairEither a b w && is_open w) eqn:E; simpl; rewrite IH;
      revert E; unfold pairEither;
      destruct (a =? b)%string eqn:Eab;
      try (apply String.eqb_eq in Eab; subst b);
      destruct (from_user w =? a)%string eqn:Efa;
      destruct (to_user w =? a)%string eqn:Eta;
      try destruct (from_user w =? b)%string eqn:Efb;
      try destruct (to_user w =? b)%string eqn:Etb;
      destruct (is_open w); simpl; intros E; try discriminate E; try ring;
      apply String.eqb_eq in Efa; apply String.eqb_eq in Efb;
      rewrite Efa in Efb; subst b; rewrite String.eqb_refl in Eab;
      discriminate Eab.
Qed.

(** The undirected amount between two users does not depend on the order
    of the two users, and it is the sum of the two directional cells (a
    single cell when the two users are the same). *)
Theorem cell_amount_is_both_directions :
  forall (ws : list Wager) (a b : string),
    getCellAmount ws a b = getCellAmount ws b a
    /\ getCellAmount ws a b
       == (if (a =? b)%string then cell_amount (getCellData ws a a)
           else cell_amount (getCellData ws a b)
                + cell_amount (getCellData ws b a)).
Proof.
  intros ws a b. split.
  - unfold getCellAmount. f_equal.
    unfold getWagersBetweenUsers. apply filter_ext; intros w.
    f_equal. apply orb_comm.
  - unfold getCellAmount. cbv zeta. rewrite between_open_filter, cellAmount_fold.
    unfold getCellData; cbn [cell_amount].
    destruct (a =? b)%string.
    + rewrite (PageFacts.cell_fold a a ws 0). reflexivity.
    + rewrite (PageFacts.cell_fold a b ws 0), (PageFacts.cell_fold b a ws 0).
      ring.
Qed.

Lemma profit_nonneg (w : Wager) :
  0 <= amount w -> 0 <= odds w -> 0 <= amount w * (odds w / 100).
Proof.
  intros Ha Ho. apply Qmult_le_0_compat; [exact Ha|].
  apply Qle_shift_div_l; [reflexivity|]. lra.
Qed.

Lemma returns_below_wagered (u : string) (l : list Wager) :
  Forall (fun w => 0 <= amount w /\ 0 <= odds w) l ->
  forall a b, a <= b -> 0 <= b ->
    let wagered := fun total wager =>
                     if (from_user wager =? u)%string
                     then total + amount wager
                     else total + amount wager * (odds wager / 100) in
    fold_left (returnsStep u) l a <= fold_left wagered l b
    /\ 0 <= fold_left wagered l b.
Proof.
  induction 1 as [|w l [Ha Ho] Hl IH]; intros a b Hab Hb; simpl.
  - split; assumption.
  - pose proof (profit_nonneg w Ha Ho) as Hp.
    apply IH; unfold returnsStep;
      repeat break_if; lra.
Qed.

Lemma Forall_filter_keep {A : Type} (P : A -> Prop) (f : A -> bool) (l : list A) :
  Forall P l -> Forall P (filter f l).
Proof.
  intros H. apply Forall_forall. intros x Hx. apply filter_In in Hx.
  rewrite Forall_forall in H. apply H, Hx.
Qed.

(** With non-negative stakes and odds, the total a user has wagered is
    non-negative and the user's realized returns never exceed it. *)
Theorem returns_never_exceed_total_wagered (ws : list Wager) (u : string) :
  Forall (fun w => 0 <= amount w /\ 0 <= odds w) ws ->
  0 <= calculateTotalWagered ws u
  /\ calculateUserReturns ws u <= calculateTotalWagered ws u.
Proof.
  intros H.
  pose proof (returns_below_wagered u (filter (involves u) ws)
                (Forall_filter_keep _ _ _ H) 0 0 (Qle_refl 0) (Qle_refl 0))
    as [H1 H2].
  split; [exact H2 | exact H1].
Qed.

Lemma returns_never_exceed_total_wagered_witness :
  Forall (fun w => 0 <= amount w /\ 0 <= odds w) [Samples.settled]
  /\ calculateUserReturns [Samples.settled] "B"
     <= calculateTotalWagered [Samples.settled] "B".
Proof.
  assert (H : Forall (fun w => 0 <= amount w /\ 0 <= odds w) [Samples.settled]).
  { repeat constructor; intros C; discriminate C. }
  split; [exact H|].
  apply (returns_never_exceed_total_wagered [Samples.settled] "B" H).
Defined.

Lemma filter_none {A : Type} (f : A -> bool) (l : list A) :
  Forall (fun x => f x = false) l -> filter f l = [].
Proof.
  induction 1 as [|x l Hx Hl IH]; simpl; [reflexivity|].
  rewrite Hx. exact IH.
Qed.

(** A user who appears on no side of any wager has no exposure, no
    returns, nothing wagered, an empty record and empty cells. *)
Theorem stranger_has_nothing (ws : list Wager) (u : string) :
  Forall (fun w => from_user w <> u /\ to_user w <> u) ws ->
  calculateUserExposure ws u = 0
  /\ calculateUserReturns ws u = 0
  /\ calculateTotalWagered ws u = 0
  /\ calculateUserRecord ws u = {| wins := 0; losses := 0; pushes := 0 |}
  /\ forall v, getCellData ws u v = {| cell_amount := 0; count := 0 |}
               /\ getCellData ws v u = {| cell_amount := 0; count := 0 |}
               /\ getCellAmount ws u v = 0.
Proof.
  intros H.
  assert (Hf : Forall (fun w => (from_user w =? u)%string = false) ws).
  { eapply Forall_impl; [|exact H]. intros w [Hw _]. apply String.eqb_neq, Hw. }
  assert (Ht : Forall (fun w => (to_user w =? u)%string = false) ws).
  { eapply Forall_impl; [|exact H]. intros w [_ Hw]. apply String.eqb_neq, Hw. }
  assert (Hi : filter (involves u) ws = []).
  { apply filter_none. rewrite Forall_forall in *. intros w Hw.
    unfold involves. rewrite (Hf w Hw), (Ht w Hw). apply andb_false_r. }
  split; [|split; [|split; [|split]]].
  - unfold calculateUserExposure. rewrite filter_none; [reflexivity|].
    eapply Forall_impl; [|exact Hf]. intros w Hw. simpl in Hw. rewrite Hw.
    reflexivity.
  - unfold calculateUserReturns. rewrite Hi. reflexivity.
  - unfold calculateTotalWagered. rewrite Hi. reflexivity.
  - unfold calculateUserRecord. rewrite Hi. reflexivity.
  - intros v. split; [|split].
    + unfold getCellData. rewrite filter_none; [reflexivity|].
      eapply Forall_impl; [|exact Hf]. intros w Hw. simpl in Hw. rewrite Hw.
      reflexivity.
    + unfold getCellData. rewrite filter_none; [reflexivity|].
      eapply Forall_impl; [|exact Ht]. intros w Hw. simpl in Hw. rewrite Hw.
      rewrite andb_false_r. reflexivity.
    + unfold getCellAmount, getWagersBetweenUsers.
      rewrite filter_none; [reflexivity|].
      rewrite Forall_forall in *. intros w Hw.
      rewrite (Hf w Hw), (Ht w Hw). rewrite andb_false_r. reflexivity.
Qed.

Lemma stranger_has_nothing_witness :
  Forall (fun w => from_user w <> "Zac"%string /\ to_user w <> "Zac"%string)
    Samples.scenario
  /\ calculateUserReturns Samples.scenario "Zac" = 0
  /\ calculateUserRecord Samples.scenario "Zac"
     = {| wins := 0; losses := 0; pushes := 0 |}.
Proof.
  assert (H : Forall (fun w => from_user w <> "Zac"%string
                               /\ to_user w <> "Zac"%string) Samples.scenario).
  { repeat constructor; discriminate. }
  split; [exact H|].
  destruct (stranger_has_nothing Samples.scenario "Zac" H) as [_ [R [_ [C _]]]].
  split; [exact R | exact C].
Defined.

(** *** Exposure: additivity, tiers, the most exposed user *)






Lemma ratio_below (e m c : Q) :
  0 < m -> (Qltb (e / m) c = true <-> e < c * m).
Proof.
  intros Hm. rewrite PageFacts.Qltb_lt. split; intros H.
  - assert (E : e == e / m * m).
    { field. intros Z. rewrite Z in Hm. exact (Qlt_irrefl 0 Hm). }
    rewrite E. apply Qmult_lt_compat_r; assumption.
  - apply Qlt_shift_div_r; assumption.
Qed.

(** The tier of [e] against a positive maximum [m], by the position of
    [e] among the quarters of [m]. *)
Lemma tier_cases (e m : Q) :
  0 < m ->
  (getExposureTier e m = 0%nat /\ (e == 0 \/ e < (1 # 4) * m))
  \/ (getExposureTier e m = 1%nat /\ (1 # 4) * m <= e /\ e < (1 # 2) * m)
  \/ (getExposureTier e m = 2%nat /\ (1 # 2) * m <= e /\ e < (3 # 4) * m)
  \/ (getExposureTier e m = 3%nat /\ (3 # 4) * m <= e).
Proof.
  intros Hm. unfold getExposureTier.
  assert (M0 : Qeq_bool m 0 = false).
  { destruct (Qeq_bool m 0) eqn:E; [|reflexivity].
    apply Qeq_bool_iff in E. rewrite E in Hm. destruct (Qlt_irrefl 0 Hm). }
  rewrite M0. simpl.
  destruct (Qeq_bool e 0) eqn:E0.
  { apply Qeq_bool_iff in E0. left. split; [reflexivity | left; exact E0]. }
  destruct (Qltb (e / m) (1 # 4)) eqn:E1.
  { apply ratio_below in E1; [|exact Hm]. left. split; [reflexivity | right; exact E1]. }
  assert (N1 : (1 # 4) * m <= e).
  { apply Qnot_lt_le. intros C. apply (ratio_below e m (1 # 4) Hm) in C. congruence. }
  destruct (Qltb (e / m) (1 # 2)) eqn:E2.
  { apply ratio_below in E2; [|exact Hm]. right; left. auto. }
  assert (N2 : (1 # 2) * m <= e).
  { apply Qnot_lt_le. intros C. apply (ratio_below e m (1 # 2) Hm) in C. congruence. }
  destruct (Qltb (e / m) (3 # 4)) eqn:E3.
  { apply ratio_below in E3; [|exact Hm]. right; right; left. auto. }
  assert (N3 : (3 # 4) * m <= e).
  { apply Qnot_lt_le. intros C. apply (ratio_below e m (3 # 4) Hm) in C. congruence. }
  right; right; right. auto.
Qed.

(** Against a positive maximum the exposure tier is monotone in the
    exposure; the maximum itself is in tier 3 and a zero exposure in tier
    0; against a zero maximum every tier is 0. *)
Theorem exposure_tier_is_monotone (e1 e2 m : Q) :
  0 < m -> e1 <= e2 ->
  (getExposureTier e1 m <= getExposureTier e2 m)%nat
  /\ (getExposureTier e2 m <= 3)%nat
  /\ getExposureTier m m = 3%nat
  /\ getExposureTier 0 m = 0%nat
  /\ getExposureTier e1 0 = 0%nat.
Proof.
  intros Hm Hle. split; [|split; [|split; [|split]]].
  - destruct (tier_cases e1 m Hm) as [[-> H1]|[[-> H1]|[[-> H1]|[-> H1]]]];
      destruct (tier_cases e2 m Hm) as [[-> H2]|[[-> H2]|[[-> H2]|[-> H2]]]];
      try lia; exfalso; try destruct H2 as [H2|H2]; lra.
  - destruct (tier_cases e2 m Hm) as [[-> _]|[[-> _]|[[-> _]|[-> _]]]]; lia.
  - destruct (tier_cases m m Hm) as [[_ [H|H]]|[[_ H]|[[_ H]|[E _]]]];
      try exact E; exfalso; lra.
  - unfold getExposureTier. change (Qeq_bool 0 0) with true.
    rewrite orb_true_r. reflexivity.
  - reflexivity.
Qed.

Lemma exposure_tier_is_monotone_witness :
  0 < 200 /\ 60 <= 120
  /\ (getExposureTier 60 200 <= getExposureTier 120 200)%nat
  /\ getExposureTier 60 200 = 1%nat /\ getExposureTier 120 200 = 2%nat.
Proof.
  assert (Hm : 0 < 200) by reflexivity.
  assert (Hle : 60 <= 120) by (intros C; discriminate C).
  split; [exact Hm|]. split; [exact Hle|].
  split; [apply (exposure_tier_is_monotone 60 120 200 Hm Hle)|].
  split; reflexivity.
Defined.

(** The first element of a sorted array comes before all the others. *)
Lemma sortBy_head {A : Type} (before : A -> A -> bool) (l : list A) :
  (forall x y, before x y = false -> before y x = true) ->
  (forall x y z, before x y = true -> before y z = true -> before x z = true) ->
  l <> [] ->
  exists x rest, sortBy before l = x :: rest
                 /\ In x l /\ forall y, In y l -> before x y = true.
Proof.
  intros Htot Htrans Hne.
  pose proof (sortBy_perm before l) as P.
  pose proof (sortBy_sorted before Htot Htrans l) as S.
  destruct (sortBy before l) as [|x rest].
  - apply Permutation_nil in P. contradiction.
  - exists x, rest. split; [reflexivity|]. split.
    + apply (Permutation_in _ P). left; reflexivity.
    + intros y Hy. apply (Permutation_in _ (Permutation_sym P)) in Hy.
      destruct Hy as [<-|Hy].
      * destruct (before x x) eqn:E; [reflexivity|].
        rewrite (Htot x x E) in E. discriminate E.
      * apply StronglySorted_inv in S. destruct S as [_ F].
        rewrite Forall_forall in F. apply F, Hy.
Qed.

Lemma moreExposedFirst_iff (a b : ExposureEntry) :
  moreExposedFirst a b = true <-> exposure b <= exposure a.
Proof.
  unfold moreExposedFirst. rewrite Qle_bool_iff. split; intros; lra.
Qed.

Lemma moreExposedFirst_total (a b : ExposureEntry) :
  moreExposedFirst a b = false -> moreExposedFirst b a = true.
Proof.
  intros H. apply moreExposedFirst_iff.
  destruct (Qlt_le_dec (exposure a) (exposure b)) as [L|L].
  - apply Qlt_le_weak, L.
  - apply moreExposedFirst_iff in L. congruence.
Qed.

Lemma moreExposedFirst_trans (a b c : ExposureEntry) :
  moreExposedFirst a b = true -> moreExposedFirst b c = true ->
  moreExposedFirst a c = true.
Proof.
  rewrite !moreExposedFirst_iff. intros; lra.
Qed.

Lemma userExposures_In (ws : list Wager) (e : ExposureEntry) :
  In e (userExposures ws) <->
  In (exp_user e) USERS /\ exposure e = calculateUserExposure ws (exp_user e).
Proof.
  unfold userExposures. cbv zeta. split.
  - intros H. apply (Permutation_in _ (sortBy_perm _ _)) in H.
    apply in_map_iff in H. destruct H as [u [<- Hu]]. simpl. auto.
  - intros [Hu He]. apply (Permutation_in _ (Permutation_sym (sortBy_perm _ _))).
    apply in_map_iff. exists (exp_user e). split; [|exact Hu].
    destruct e as [u x]; simpl in *. rewrite He. reflexivity.
Qed.

Lemma userExposures_head (ws : list Wager) :
  exists x rest,
    userExposures ws = x :: rest
    /\ In (exp_user x) USERS
    /\ exposure x = calculateUserExposure ws (exp_user x)
    /\ forall u, In u USERS -> calculateUserExposure ws u <= exposure x.
Proof.
  destruct (sortBy_head moreExposedFirst
              (map (fun u => {| exp_user := u;
                                exposure := calculateUserExposure ws u |}) USERS)
              moreExposedFirst_total moreExposedFirst_trans)
    as [x [rest [E [Hx Hall]]]].
  { intros C. apply map_eq_nil in C. discriminate C. }
  exists x, rest. split; [exact E|].
  assert (Hin : In x (userExposures ws)).
  { unfold userExposures. cbv zeta. rewrite E. left; reflexivity. }
  apply userExposures_In in Hin. destruct Hin as [Hu He].
  split; [exact Hu|]. split; [exact He|].
  intros u Hu'.
  specialize (Hall {| exp_user := u; exposure := calculateUserExposure ws u |}).
  apply moreExposedFirst_iff in Hall; [exact Hall|].
  apply in_map_iff. exists u. split; [reflexivity | exact Hu'].
Qed.

Lemma jsOr_zero (v : Q) : jsOr (Some v) 0 == v.
Proof.
  simpl. destruct (Qeq_bool v 0) eqn:E; [|reflexivity].
  apply Qeq_bool_iff in E. symmetry. exact E.
Qed.

(** The maximum exposure is reached by the top exposed user, a member of
    the roster, and no roster user has a higher exposure. *)
Theorem max_exposure_bounds_the_roster (ws : list Wager) (u : string) :
  In u USERS ->
  calculateUserExposure ws u <= maxExposure ws
  /\ exists top, topExposedUser ws = Some top
                 /\ In top USERS
                 /\ maxExposure ws == calculateUserExposure ws top.
Proof.
  intros Hu.
  destruct (userExposures_head ws) as [x [rest [E [Hx [He Hall]]]]].
  assert (M : maxExposure ws == exposure x).
  { unfold maxExposure. rewrite E. simpl nth_error. apply jsOr_zero. }
  split.
  - rewrite M. apply Hall, Hu.
  - exists (exp_user x). split; [unfold topExposedUser; rewrite E; reflexivity|].
    split; [exact Hx|]. rewrite M, He. reflexivity.
Qed.

Lemma max_exposure_bounds_the_roster_witness :
  In "Chas"%string USERS
  /\ calculateUserExposure Samples.board "Chas" <= maxExposure Samples.board
  /\ topExposedUser Samples.board = Some "Will"%string.
Proof.
  assert (H : In "Chas"%string USERS) by (left; reflexivity).
  split; [exact H|].
  split; [apply (max_exposure_bounds_the_roster Samples.board "Chas" H)|].
  reflexivity.
Defined.

(** *** Badges *)

Lemma NoDup_USERS : NoDup USERS.
Proof.
  unfold USERS.
  repeat (constructor; [simpl; intuition discriminate|]). constructor.
Qed.

Lemma top3Users_In (ws : list Wager) (u : string) :
  In u (top3Users ws) -> In u USERS /\ 0 < calculateUserExposure ws u.
Proof.
  unfold top3Users. intros H. apply in_map_iff in H.
  destruct H as [e [<- He]].
  assert (He' : In e (filter (fun u => Qltb 0 (exposure u)) (userExposures ws))).
  { rewrite <- (firstn_skipn 3 (filter _ _)). apply in_or_app. left; exact He. }
  apply filter_In in He'. destruct He' as [Hin Hpos].
  apply userExposures_In in Hin. destruct Hin as [Hu Hx].
  split; [exact Hu|]. rewrite <- Hx. apply PageFacts.Qltb_lt, Hpos.
Qed.

Lemma top3Users_length (ws : list Wager) : (List.length (top3Users ws) <= 3)%nat.
Proof.
  unfold top3Users. rewrite length_map, length_firstn. lia.
Qed.

(** What wearing the crown means. *)
Lemma crown_cases (ws : list Wager) (u : string) :
  getUserBadge ws u = Crown ->
  exists x rest, userExposures ws = x :: rest
                 /\ exp_user x = u /\ 0 < exposure x
                 /\ maxExposure ws == exposure x.
Proof.
  intros H.
  destruct (userExposures_head ws) as [x [rest [E _]]].
  assert (M : maxExposure ws == exposure x).
  { unfold maxExposure. rewrite E. simpl nth_error. apply jsOr_zero. }
  assert (T : isTopExposed ws u = (u =? exp_user x)%string).
  { unfold isTopExposed, topExposedUser. rewrite E. reflexivity. }
  unfold getUserBadge in H. rewrite T in H.
  destruct (u =? exp_user x)%string eqn:Eu;
    destruct (Qltb 0 (maxExposure ws)) eqn:Em; cbn [andb negb] in H;
    try (rewrite andb_false_r in H);
    try (destruct (existsb (String.eqb u) (top3Users ws)); cbn [andb] in H;
         discriminate H).
  exists x, rest. apply String.eqb_eq in Eu. apply PageFacts.Qltb_lt in Em.
  split; [exact E|]. split; [symmetry; exact Eu|].
  split; [rewrite <- M; exact Em | exact M].
Qed.

Lemma crown_in_top3 (ws : list Wager) (u : string) :
  getUserBadge ws u = Crown -> In u (top3Users ws).
Proof.
  intros H. destruct (crown_cases ws u H) as [x [rest [E [Hu [Hpos _]]]]].
  unfold top3Users. rewrite E. simpl.
  apply PageFacts.Qltb_lt in Hpos. rewrite Hpos. simpl. left. exact Hu.
Qed.

Lemma badge_in_top3 (ws : list Wager) (u : string) :
  getUserBadge ws u <> NoBadge -> In u (top3Users ws).
Proof.
  intros H. destruct (getUserBadge ws u) eqn:B.
  - contradiction.
  - apply crown_in_top3, B.
  - unfold getUserBadge in B.
    destruct (isTopExposed ws u && Qltb 0 (maxExposure ws)); [discriminate B|].
    destruct (existsb (String.eqb u) (top3Users ws)) eqn:Ex;
      [|discriminate B].
    apply existsb_exists in Ex. destruct Ex as [v [Hv Ev]].
    apply String.eqb_eq in Ev. subst v. exact Hv.
Qed.

(** A badge is only given to a roster user with positive exposure, and
    the crown only to a user whose exposure is the maximum: no roster user
    is more exposed. *)
Theorem badge_needs_positive_exposure (ws : list Wager) (u : string) :
  getUserBadge ws u <> NoBadge ->
  In u USERS
  /\ 0 < calculateUserExposure ws u
  /\ (getUserBadge ws u = Crown ->
      topExposedUser ws = Some u
      /\ forall v, In v USERS ->
                   calculateUserExposure ws v <= calculateUserExposure ws u).
Proof.
  intros H. destruct (top3Users_In ws u (badge_in_top3 ws u H)) as [Hu Hpos].
  split; [exact Hu|]. split; [exact Hpos|].
  intros C. destruct (crown_cases ws u C) as [x [rest [E [Eu [_ M]]]]].
  split; [unfold topExposedUser; rewrite E; simpl; rewrite Eu; reflexivity|].
  intros v Hv.
  destruct (max_exposure_bounds_the_roster ws v Hv) as [Hle _].
  assert (Hx : In x (userExposures ws)) by (rewrite E; left; reflexivity).
  apply userExposures_In in Hx. destruct Hx as [_ Hx].
  rewrite Eu in Hx. rewrite <- Hx, <- M. exact Hle.
Qed.

Lemma badge_needs_positive_exposure_witness :
  getUserBadge Samples.board "Will" <> NoBadge
  /\ getUserBadge Samples.board "Will" = Crown
  /\ getUserBadge Samples.board "Chas" = Warning
  /\ getUserBadge Samples.board "Ted" = NoBadge
  /\ 0 < calculateUserExposure Samples.board "Will".
Proof.
  assert (H : getUserBadge Samples.board "Will" <> NoBadge)
    by (vm_compute; discriminate).
  split; [exact H|]. split; [reflexivity|]. split; [reflexivity|].
  split; [reflexivity|].
  apply (badge_needs_positive_exposure Samples.board "Will" H).
Defined.

(** Badges are scarce: whatever the wagers, at most three roster users
    wear a badge and at most one of them wears the crown. *)
Theorem badges_are_scarce :
  forall ws : list Wager,
    (List.length (filter (fun u => match getUserBadge ws u with
                                   | NoBadge => false
                                   | _ => true
                                   end) USERS) <= 3)%nat
    /\ (List.length (filter (fun u => match getUserBadge ws u with
                                      | Crown => true
                                      | _ => false
                                      end) USERS) <= 1)%nat.
Proof.
  intros ws. split.
  - etransitivity; [|apply (top3Users_length ws)].
    apply NoDup_incl_length; [apply NoDup_filter, NoDup_USERS|].
    intros u Hu. apply filter_In in Hu. destruct Hu as [_ Hb].
    apply badge_in_top3. intros C. rewrite C in Hb. discriminate Hb.
  - destruct (userExposures_head ws) as [x [rest [E _]]].
    change 1%nat with (List.length [exp_user x]).
    apply NoDup_incl_length; [apply NoDup_filter, NoDup_USERS|].
    intros u Hu. apply filter_In in Hu. destruct Hu as [_ Hb].
    destruct (getUserBadge ws u) eqn:B; try discriminate Hb.
    destruct (crown_cases ws u B) as [x' [rest' [E' [Eu _]]]].
    rewrite E in E'. injection E' as <- _. left. exact Eu.
Qed.

(** *** Leaderboard *)

Arguments USERS : simpl never.





Lemma existsb_absent (a : string) (l : list string) :
  ~ In a l -> existsb (String.eqb a) l = false.
Proof.
  intros H. destruct (existsb (String.eqb a) l) eqn:E; [|reflexivity].
  apply existsb_exists in E. destruct E as [v [Hv Ev]].
  apply String.eqb_eq in Ev. subst v. contradiction.
Qed.

Lemma existsb_present (a : string) (l : list string) :
  In a l -> existsb (String.eqb a) l = true.
Proof.
  intros H. apply existsb_exists. exists a. split; [exact H|].
  apply String.eqb_refl.
Qed.




Lemma higherReturnsFirst_iff (a b : LeaderboardEntry) :
  higherReturnsFirst a b = true <-> returns b <= returns a.
Proof.
  unfold higherReturnsFirst. rewrite Qle_bool_iff. split; intros; lra.
Qed.

Lemma higherReturnsFirst_total (a b : LeaderboardEntry) :
  higherReturnsFirst a b = false -> higherReturnsFirst b a = true.
Proof.
  intros H. apply higherReturnsFirst_iff.
  destruct (Qlt_le_dec (returns a) (returns b)) as [L|L].
  - apply Qlt_le_weak, L.
  - apply higherReturnsFirst_iff in L. congruence.
Qed.

Lemma higherReturnsFirst_trans (a b c : LeaderboardEntry) :
  higherReturnsFirst a b = true -> higherReturnsFirst b c = true ->
  higherReturnsFirst a c = true.
Proof.
  rewrite !higherReturnsFirst_iff. intros; lra.
Qed.

(** The leaderboard lists every roster user exactly once, each with that
    user's returns, total wagered and record, in descending order of
    returns. *)
Theorem leaderboard_ranks_the_roster :
  forall ws : list Wager,
    Permutation (map lb_user (leaderboard ws)) USERS
    /\ StronglySorted (fun a b => returns b <= returns a) (leaderboard ws)
    /\ Forall (fun e => returns e = calculateUserReturns ws (lb_user e)
                        /\ totalWagered e = calculateTotalWagered ws (lb_user e)
                        /\ record e = calculateUserRecord ws (lb_user e))
              (leaderboard ws).
Proof.
  intros ws. unfold leaderboard. split; [|split].
  - rewrite (Permutation_map lb_user (sortBy_perm _ _)).
    rewrite map_map. cbn [lb_user]. rewrite map_id. reflexivity.
  - pose proof (sortBy_sorted higherReturnsFirst higherReturnsFirst_total
                  higherReturnsFirst_trans
                  (map (fun u => {| lb_user := u;
                                    returns := calculateUserReturns ws u;
                                    totalWagered := calculateTotalWagered ws u;
                                    record := calculateUserRecord ws u |}) USERS))
      as S.
    induction S as [|x r Hs IH Hx]; constructor; [exact IH|].
    eapply Forall_impl; [|exact Hx].
    intros y Hy. apply higherReturnsFirst_iff. exact Hy.
  - eapply Permutation_Forall; [symmetry; apply sortBy_perm|].
    apply Forall_forall. intros e He. apply in_map_iff in He.
    destruct He as [u [<- _]]. simpl. auto.
Qed.



(** *** Pinning and selecting users *)

Lemma filter_without {A : Type} (f : A -> bool) (l : list A) :
  Forall (fun x => f x = true) l -> filter f l = l.
Proof.
  induction 1 as [|x l Hx Hl IH]; simpl; [reflexivity|].
  rewrite Hx, IH. reflexivity.
Qed.

Lemma others_kept (p : string) (l : list string) :
  ~ In p l -> filter (fun u => negb (u =? p)%string) l = l.
Proof.
  intros H. apply filter_without. apply Forall_forall. intros u Hu.
  apply negb_true_iff, String.eqb_neq. intros ->. contradiction.
Qed.

Lemma roster_names_truthy (p : string) : In p USERS -> truthy (Some p) = true.
Proof.
  unfold USERS. simpl. intuition (subst; reflexivity).
Qed.

(** Pinning a roster user moves that user to the front and leaves the
    other users in roster order; without a pinned user the order is the
    roster's. *)
Theorem pinned_user_comes_first (p : string) :
  In p USERS ->
  (exists before after,
      USERS = before ++ p :: after
      /\ sortedUsers (Some p) = p :: before ++ after)
  /\ Permutation (sortedUsers (Some p)) USERS
  /\ sortedUsers None = USERS.
Proof.
  intros Hp.
  assert (E : exists before after,
             USERS = before ++ p :: after
             /\ sortedUsers (Some p) = p :: before ++ after).
  { destruct (in_split _ _ Hp) as [l1 [l2 HU]].
    exists l1, l2. split; [exact HU|].
    unfold sortedUsers. rewrite (roster_names_truthy p Hp). f_equal.
    pose proof NoDup_USERS as ND. rewrite HU in ND |- *.
    apply NoDup_remove_2 in ND.
    rewrite filter_app. simpl. rewrite String.eqb_refl. simpl.
    rewrite !others_kept; [reflexivity| |];
      intros C; apply ND, in_or_app; auto. }
  split; [exact E|]. split; [|reflexivity].
  destruct E as [l1 [l2 [HU HS]]]. rewrite HS, HU.
  apply Permutation_middle.
Qed.

Lemma pinned_user_comes_first_witness :
  In "Matt"%string USERS
  /\ sortedUsers (Some "Matt"%string)
     = ["Matt"; "Chas"; "Clay"; "Craig"; "Daniel"; "John"; "Nick"; "Ryan";
        "Sean"; "Ted"; "Trey"; "Will"; "Zac"]%string
  /\ Permutation (sortedUsers (Some "Matt"%string)) USERS.
Proof.
  assert (H : In "Matt"%string USERS).
  { unfold USERS. simpl. repeat (try (left; reflexivity); right). }
  split; [exact H|]. split; [reflexivity|].
  apply (pinned_user_comes_first "Matt" H).
Defined.

Lemma toggle_present (prev : list string) (u : string) :
  In u prev ->
  handleToUserToggle prev u = filter (fun v => negb (v =? u)%string) prev.
Proof.
  intros H. unfold handleToUserToggle. rewrite (existsb_present u prev H).
  reflexivity.
Qed.

Lemma toggle_absent (prev : list string) (u : string) :
  ~ In u prev -> handleToUserToggle prev u = prev ++ [u].
Proof.
  intros H. unfold handleToUserToggle. rewrite (existsb_absent u prev H).
  reflexivity.
Qed.

Lemma In_dec_string (u : string) (l : list string) : In u l \/ ~ In u l.
Proof.
  destruct (in_dec string_dec u l); [left | right]; assumption.
Qed.

(** Toggling an opponent flips whether that user is selected and changes
    nobody else; it keeps a selection free of duplicates; and toggling an
    unselected user twice gives the selection back. *)
Theorem toggle_flips_one_selection :
  forall (prev : list string) (u : string),
    (In u (handleToUserToggle prev u) <-> ~ In u prev)
    /\ (forall v, v <> u -> (In v (handleToUserToggle prev u) <-> In v prev))
    /\ (NoDup prev -> NoDup (handleToUserToggle prev u))
    /\ (~ In u prev ->
        handleToUserToggle (handleToUserToggle prev u) u = prev).
Proof.
  intros prev u. destruct (In_dec_string u prev) as [Hin|Hout].
  - rewrite (toggle_present prev u Hin). split; [|split; [|split]].
    + rewrite filter_In, negb_true_iff, String.eqb_neq. tauto.
    + intros v Hv. rewrite filter_In, negb_true_iff, String.eqb_neq. tauto.
    + apply NoDup_filter.
    + contradiction.
  - rewrite (toggle_absent prev u Hout). split; [|split; [|split]].
    + rewrite in_app_iff. simpl. tauto.
    + intros v Hv. rewrite in_app_iff. simpl.
      split; [intros [H|[H|[]]]; [exact H | congruence] | auto].
    + intros ND. apply NoDup_app; [exact ND | repeat constructor; auto |].
      intros x Hx [<-|[]]. contradiction.
    + intros _. rewrite toggle_present by (apply in_or_app; right; left; reflexivity).
      rewrite filter_app. simpl. rewrite String.eqb_refl. simpl.
      rewrite (others_kept u prev Hout). apply app_nil_r.
Qed.

(** *** The create and edit form *)

Lemma truthy_Some (s : string) : truthy (Some s) = negb (s =? "")%string.
Proof. reflexivity. Qed.

(** The submit button is enabled exactly when [handleSubmit] accepts the
    form: the validity shown to the user and the guard of the handler
    agree, also on amounts and odds that do not parse. *)
Theorem form_validity_matches_submit_guard :
  forall (trim : string -> string) (editingWager : option Wager)
         (currentUserName : option string) (f : WagerForm),
    isFormValid trim f = true
    <-> handleSubmit trim editingWager currentUserName f <> FormError.
Proof.
  intros trim editingWager currentUserName f.
  unfold isFormValid, handleSubmit. rewrite !truthy_Some.
  destruct (formAmount f) as [a|], (formOdds f) as [o|]; simpl;
    rewrite ?andb_false_r; simpl;
    try (split; [discriminate | intros C; exfalso; apply C; reflexivity]).
  rewrite !andb_true_r.
  destruct (negb (formFrom f =? "")%string
            && (0 <? List.length (validToUsers f))%nat
            && Qltb 0 a && (0 <? o)%Z
            && negb (trim (formDescription f) =? "")%string).
  - split; [|reflexivity]. intros _. destruct editingWager; discriminate.
  - split; [discriminate|]. intros C. exfalso. apply C. reflexivity.
Qed.

(** When [handleSubmit] creates wagers, it creates one open wager per
    selected opponent other than the placer, in the order of selection: at
    least one, none of them a self-wager, all placed by the chosen user
    with a positive amount, positive odds and a non-empty description. *)
Theorem submit_creates_no_self_wager
    (trim : string -> string) (currentUserName : option string)
    (f : WagerForm) (rows : list NewWager) :
  handleSubmit trim None currentUserName f = InsertWagers rows ->
  rows <> []
  /\ map new_to_user rows = validToUsers f
  /\ Forall (fun r => new_from_user r = formFrom f
                      /\ new_to_user r <> new_from_user r
                      /\ In (new_to_user r) (formToUsers f)
                      /\ new_status r = open
                      /\ 0 < new_amount r
                      /\ 0 < new_odds r
                      /\ new_description r <> ""%string
                      /\ new_created_by r = currentUserName) rows.
Proof.
  unfold handleSubmit. rewrite !truthy_Some.
  destruct (formAmount f) as [a|]; [|discriminate].
  destruct (formOdds f) as [o|]; [|discriminate].
  destruct (negb (formFrom f =? "")%string) eqn:Ef; [|discriminate].
  destruct (0 <? List.length (validToUsers f))%nat eqn:El; [|discriminate].
  destruct (Qltb 0 a) eqn:Ea; [|discriminate].
  destruct (0 <? o)%Z eqn:Eo; [|discriminate].
  destruct (negb (trim (formDescription f) =? "")%string) eqn:Ed;
    [|discriminate].
  simpl. intros H. injection H as <-.
  apply Nat.ltb_lt in El. apply PageFacts.Qltb_lt in Ea.
  apply Z.ltb_lt in Eo. apply negb_true_iff, String.eqb_neq in Ed.
  split; [|split].
  - intros C. apply (f_equal (@List.length _)) in C.
    rewrite length_map in C. simpl in C. lia.
  - rewrite map_map. simpl. apply map_id.
  - apply Forall_forall. intros r Hr. apply in_map_iff in Hr.
    destruct Hr as [t [<- Ht]]. simpl.
    unfold validToUsers in Ht. apply filter_In in Ht.
    destruct Ht as [Hin Hne]. apply negb_true_iff, String.eqb_neq in Hne.
    repeat split; auto.
    unfold Qlt. simpl. lia.
Qed.

Lemma submit_creates_no_self_wager_witness :
  handleSubmit (fun s => s) None (Some "Chas"%string) Samples.filled
  = InsertWagers
      (map (fun t => {| new_from_user := "Chas"; new_to_user := t;
                        new_amount := 25; new_odds := 150;
                        new_description := "Super Bowl"; new_status := open;
                        new_created_by := Some "Chas"%string |})
           ["Clay"; "Will"]%string)
  /\ map new_to_user
       (map (fun t => {| new_from_user := "Chas"; new_to_user := t;
                         new_amount := 25; new_odds := 150;
                         new_description := "Super Bowl"; new_status := open;
                         new_created_by := Some "Chas"%string |})
            ["Clay"; "Will"]%string)
     = validToUsers Samples.filled.
Proof.
  assert (H : handleSubmit (fun s => s) None (Some "Chas"%string) Samples.filled
              = InsertWagers
                  (map (fun t => {| new_from_user := "Chas"; new_to_user := t;
                        new_amount := 25; new_odds := 150;
                        new_description := "Super Bowl"; new_status := open;
                        new_created_by := Some "Chas"%string |})
                       ["Clay"; "Will"]%string)) by reflexivity.
  split; [exact H|].
  apply (submit_creates_no_self_wager _ _ _ _ H).
Defined.

(** *** Relative time *)

(** What [formatRelativeTime] prints pins the age down: "just now" below
    one minute (and for stamps in the future), between 1 and 59 whole
    minutes, between 1 and 23 whole hours, between 1 and 6 whole days, and
    the date from seven days on. *)
Theorem relative_time_ranges :
  forall nowMs thenMs : Z,
    let d := (nowMs - thenMs)%Z in
    match formatRelativeTime nowMs thenMs with
    | JustNow => (d < 60000)%Z
    | MinutesAgo n =>
        (1 <= n <= 59 /\ n * 60000 <= d < (n + 1) * 60000)%Z
    | HoursAgo n =>
        (1 <= n <= 23 /\ n * 3600000 <= d < (n + 1) * 3600000)%Z
    | DaysAgo n =>
        (1 <= n <= 6 /\ n * 86400000 <= d < (n + 1) * 86400000)%Z
    | LocaleDate t => (t = thenMs /\ 7 * 86400000 <= d)%Z
    end.
Proof.
  intros nowMs thenMs d. unfold formatRelativeTime. fold d.
  destruct (d / 60000 <? 1)%Z eqn:E1;
    [apply Z.ltb_lt in E1; Z.to_euclidean_division_equations; lia|].
  apply Z.ltb_ge in E1.
  destruct (d / 60000 <? 60)%Z eqn:E2;
    [apply Z.ltb_lt in E2; Z.to_euclidean_division_equations; lia|].
  apply Z.ltb_ge in E2.
  destruct (d / 3600000 <? 24)%Z eqn:E3;
    [apply Z.ltb_lt in E3; Z.to_euclidean_division_equations; lia|].
  apply Z.ltb_ge in E3.
  destruct (d / 86400000 <? 7)%Z eqn:E4;
    [apply Z.ltb_lt in E4; Z.to_euclidean_division_equations; lia|].
  apply Z.ltb_ge in E4.
  Z.to_euclidean_division_equations; lia.
Qed.

(** *** Tints and records across the roster *)



Lemma list_sum_perm (l l' : list nat) :
  Permutation l l' -> list_sum l = list_sum l'.
Proof.
  induction 1; simpl; lia.
Qed.

Lemma list_sum_map_plus {A : Type} (f g : A -> nat) (l : list A) :
  list_sum (map (fun x => f x + g x)%nat l)
  = (list_sum (map f l) + list_sum (map g l))%nat.
Proof.
  induction l as [|x l IH]; simpl; lia.
Qed.

Lemma list_sum_two_users (l : list string) (a b : string) (x y : nat) :
  NoDup l -> a <> b ->
  list_sum (map (fun u => if (a =? u)%string then x
                          else if (b =? u)%string then y else 0%nat) l)
  = ((if existsb (String.eqb a) l then x else 0)
     + (if existsb (String.eqb b) l then y else 0))%nat.
Proof.
  intros Hnd Hab. induction Hnd as [|u l Hu Hnd IH]; simpl; [reflexivity|].
  rewrite IH.
  destruct (a =? u)%string eqn:Ea, (b =? u)%string eqn:Eb; simpl.
  - apply String.eqb_eq in Ea, Eb. congruence.
  - apply String.eqb_eq in Ea. subst u.
    rewrite (existsb_absent a l Hu). lia.
  - apply String.eqb_eq in Eb. subst u.
    rewrite (existsb_absent b l Hu). lia.
  - lia.
Qed.

(** The tallies of the loop, as the sums of what each wager adds. *)
Lemma record_tallies (u : string) (l : list Wager) (r : UserRecord) :
  let z := {| wins := 0; losses := 0; pushes := 0 |} in
  wins (fold_left (recordStep u) l r)
  = (wins r + list_sum (map (fun w => wins (recordStep u z w)) l))%nat
  /\ losses (fold_left (recordStep u) l r)
     = (losses r + list_sum (map (fun w => losses (recordStep u z w)) l))%nat.
Proof.
  intros z. revert r. induction l as [|w l IH]; intros r; simpl.
  - split; lia.
  - destruct (IH (recordStep u r w)) as [Hw Hl]. rewrite Hw, Hl.
    unfold recordStep. repeat break_if; simpl; split; lia.
Qed.

Lemma list_sum_filter_map {A : Type} (p : A -> bool) (f : A -> nat) (l : list A) :
  list_sum (map f (filter p l))
  = list_sum (map (fun x => if p x then f x else 0%nat) l).
Proof.
  induction l as [|x l IH]; simpl; [reflexivity|].
  destruct (p x); simpl; rewrite IH; reflexivity.
Qed.

(** One settled wager gives the roster as many wins as losses. *)
Lemma wager_wins_equal_losses (w : Wager) :
  settledAmongRoster w ->
  let z := {| wins := 0; losses := 0; pushes := 0 |} in
  list_sum (map (fun u => if involves u w
                          then wins (recordStep u z w) else 0%nat) USERS)
  = list_sum (map (fun u => if involves u w
                            then losses (recordStep u z w) else 0%nat) USERS).
Proof.
  intros Hw z. unfold involves, is_resolved.
  destruct (status w) eqn:Es; cbn [Status_eqb andb]; [reflexivity|].
  destruct (Hw Es) as [[r Hr] [Hne [Hf Ht]]].
  set (x := match r with ResultFrom => 1%nat | _ => 0%nat end).
  set (y := match r with ResultTo => 1%nat | _ => 0%nat end).
  rewrite (map_ext _ (fun u => if (from_user w =? u)%string then x
                               else if (to_user w =? u)%string then y
                                    else 0%nat)).
  - rewrite (map_ext (fun u => if ((from_user w =? u)%string
                                   || (to_user w =? u)%string)%bool
                               then losses (recordStep u z w) else 0%nat)
                     (fun u => if (from_user w =? u)%string then y
                               else if (to_user w =? u)%string then x
                                    else 0%nat)).
    + rewrite !(list_sum_two_users USERS _ _ _ _ NoDup_USERS Hne).
      rewrite (existsb_present _ _ Hf), (existsb_present _ _ Ht). lia.
    + intros u. unfold recordStep, result_is. rewrite Hr. unfold x, y.
      destruct r, (from_user w =? u)%string, (to_user w =? u)%string;
        reflexivity.
  - intros u. unfold recordStep, result_is. rewrite Hr. unfold x, y.
    destruct r, (from_user w =? u)%string, (to_user w =? u)%string;
      reflexivity.
Qed.

Lemma roster_wins_equal_losses (ws : list Wager) :
  Forall settledAmongRoster ws ->
  let z := {| wins := 0; losses := 0; pushes := 0 |} in
  list_sum (map (fun u => list_sum (map (fun w => if involves u w
                                                  then wins (recordStep u z w)
                                                  else 0%nat) ws)) USERS)
  = list_sum (map (fun u => list_sum (map (fun w => if involves u w
                                                    then losses (recordStep u z w)
                                                    else 0%nat) ws)) USERS).
Proof.
  intros H z. induction H as [|w ws Hw Hws IH]; [reflexivity|].
  pose proof (list_sum_map_plus
                (fun u => if involves u w then wins (recordStep u z w) else 0%nat)
                (fun u => list_sum (map (fun w => if involves u w
                                                  then wins (recordStep u z w)
                                                  else 0%nat) ws)) USERS) as Pw.
  pose proof (list_sum_map_plus
                (fun u => if involves u w then losses (recordStep u z w) else 0%nat)
                (fun u => list_sum (map (fun w => if involves u w
                                                  then losses (recordStep u z w)
                                                  else 0%nat) ws)) USERS) as Pl.
  cbv beta in Pw, Pl.
  etransitivity; [exact Pw|]. etransitivity; [|symmetry; exact Pl].
  rewrite IH. f_equal. apply (wager_wins_equal_losses w Hw).
Qed.

(** Across the leaderboard the wins add up to the losses when every
    resolved wager has a recorded result and is between two distinct
    roster users: each settled wager is one user's win and another's
    loss. *)
Theorem leaderboard_wins_equal_losses (ws : list Wager) :
  Forall (fun w => status w = resolved ->
                   (exists r, result w = Some r)
                   /\ from_user w <> to_user w
                   /\ In (from_user w) USERS /\ In (to_user w) USERS) ws ->
  list_sum (map (fun e => wins (record e)) (leaderboard ws))
  = list_sum (map (fun e => losses (record e)) (leaderboard ws)).
Proof.
  intros H. unfold leaderboard.
  rewrite (list_sum_perm _ _ (Permutation_map (fun e => wins (record e))
                                (sortBy_perm _ _))).
  rewrite (list_sum_perm _ _ (Permutation_map (fun e => losses (record e))
                                (sortBy_perm _ _))).
  rewrite !map_map. cbn [record].
  pose proof (roster_wins_equal_losses ws H) as R. cbv zeta in R.
  rewrite (map_ext (fun u => wins (calculateUserRecord ws u))
                   (fun u => list_sum
                      (map (fun w => if involves u w
                                     then wins (recordStep u
                                            {| wins := 0; losses := 0; pushes := 0 |} w)
                                     else 0%nat) ws))).
  - rewrite (map_ext (fun u => losses (calculateUserRecord ws u))
                     (fun u => list_sum
                        (map (fun w => if involves u w
                                       then losses (recordStep u
                                              {| wins := 0; losses := 0; pushes := 0 |} w)
                                       else 0%nat) ws))).
    + exact R.
    + intros u. unfold calculateUserRecord. cbv zeta.
      destruct (record_tallies u (filter (involves u) ws)
                  {| wins := 0; losses := 0; pushes := 0 |}) as [_ L].
      rewrite L. simpl. apply list_sum_filter_map.
  - intros u. unfold calculateUserRecord. cbv zeta.
    destruct (record_tallies u (filter (involves u) ws)
                {| wins := 0; losses := 0; pushes := 0 |}) as [W _].
    rewrite W. simpl. apply list_sum_filter_map.
Qed.

Lemma leaderboard_wins_equal_losses_witness :
  Forall (fun w => status w = resolved ->
                   (exists r, result w = Some r)
                   /\ from_user w <> to_user w
                   /\ In (from_user w) USERS /\ In (to_user w) USERS)
    Samples.season
  /\ list_sum (map (fun e => wins (record e)) (leaderboard Samples.season))
     = 2%nat
  /\ list_sum (map (fun e => losses (record e)) (leaderboard Samples.season))
     = 2%nat.
Proof.
  assert (H : Forall (fun w => status w = resolved ->
                   (exists r, result w = Some r)
                   /\ from_user w <> to_user w
                   /\ In (from_user w) USERS /\ In (to_user w) USERS)
                Samples.season).
  { repeat (constructor;
            [intros Hs;
             first [ discriminate Hs
                   | split; [eexists; reflexivity|];
                     split; [discriminate|];
                     split; unfold USERS; simpl;
                     repeat (try (left; reflexivity); right) ] |]).
    constructor. }
  split; [exact H|]. split; [reflexivity|].
  rewrite <- (leaderboard_wins_equal_losses Samples.season H). reflexivity.
Defined.

End PageExtras.

(** ** Further properties of the in-memory variant *)
Module SignedExtras.
Import Signed.

(** *** Resolving, again and elsewhere *)

(** Resolving the same wager again overwrites the earlier result (the
    last resolution wins, and repeating one changes nothing); resolutions
    of different wagers commute; the ids of the collection are unchanged
    and no wager with the resolved id is left open. *)
Theorem resolve_last_write_wins :
  forall (ws : list Wager) (i j : string) (r1 r2 : Result),
    handleResolveWager (handleResolveWager ws i r1) i r2
    = handleResolveWager ws i r2
    /\ handleResolveWager (handleResolveWager ws i r1) i r1
       = handleResolveWager ws i r1
    /\ (i <> j ->
        handleResolveWager (handleResolveWager ws i r1) j r2
        = handleResolveWager (handleResolveWager ws j r2) i r1)
    /\ map id (handleResolveWager ws i r1) = map id ws
    /\ Forall (fun w => id w = i -> status w = resolved /\ result w = Some r1)
              (handleResolveWager ws i r1).
Proof.
  intros ws i j r1 r2.
  assert (L : forall r r', handleResolveWager (handleResolveWager ws i r) i r'
                           = handleResolveWager ws i r').
  { intros r r'. unfold handleResolveWager. rewrite map_map.
    apply map_ext. intros w.
    destruct (id w =? i)%string eqn:E; simpl; rewrite E; reflexivity. }
  split; [apply L|]. split; [apply L|]. split; [|split].
  - intros Hij. unfold handleResolveWager. rewrite !map_map.
    apply map_ext. intros w.
    destruct (id w =? i)%string eqn:Ei, (id w =? j)%string eqn:Ej; simpl;
      rewrite ?Ei, ?Ej; try reflexivity.
    apply String.eqb_eq in Ei, Ej. congruence.
  - unfold handleResolveWager. rewrite map_map. apply map_ext. intros w.
    destruct (id w =? i)%string; reflexivity.
  - apply Forall_forall. intros w' Hw'. unfold handleResolveWager in Hw'.
    apply in_map_iff in Hw'. destruct Hw' as [w [<- _]].
    destruct (id w =? i)%string eqn:E; simpl; [auto|].
    intros C. apply String.eqb_neq in E. contradiction.
Qed.

(** Resolving an id that no wager carries leaves the collection as it
    is. *)
Theorem resolve_unknown_id_changes_nothing
    (ws : list Wager) (i : string) (r : Result) :
  ~ In i (map id ws) -> handleResolveWager ws i r = ws.
Proof.
  intros H. unfold handleResolveWager.
  rewrite <- (map_id ws) at 2. apply map_ext_in. intros w Hw.
  destruct (id w =? i)%string eqn:E; [|reflexivity].
  apply String.eqb_eq in E. exfalso. apply H. rewrite <- E.
  apply in_map, Hw.
Qed.

Lemma resolve_unknown_id_changes_nothing_witness :
  ~ In "zz"%string (map id [Samples.chiefs; Samples.dodgers])
  /\ handleResolveWager [Samples.chiefs; Samples.dodgers] "zz" ResultPush
     = [Samples.chiefs; Samples.dodgers].
Proof.
  assert (H : ~ In "zz"%string (map id [Samples.chiefs; Samples.dodgers])).
  { simpl. intros [C|[C|[]]]; discriminate C. }
  split; [exact H|].
  apply (resolve_unknown_id_changes_nothing _ _ _ H).
Defined.

Lemma open_after_resolve (p : Wager -> bool) (ws : list Wager)
    (i : string) (r : Result) :
  (forall w r', id w = i ->
     p {| id := id w; from := from w; to := to w; amount := amount w;
          odds := odds w; description := description w;
          status := resolved; result := Some r' |} = false) ->
  filter p (handleResolveWager ws i r)
  = filter p (filter (fun w => negb (id w =? i)%string) ws).
Proof.
  intros Hp. induction ws as [|w ws IH]; simpl; [reflexivity|].
  destruct (id w =? i)%string eqn:E; simpl.
  - apply String.eqb_eq in E. rewrite (Hp w r E). exact IH.
  - rewrite IH. reflexivity.
Qed.

(** Resolving a wager takes it out of the open book: the exposure of
    every user becomes what it would be without the wagers of that id. *)
Theorem resolve_closes_exposure :
  forall (ws : list Wager) (i : string) (r : Result) (u : string),
    calculateUserExposure (handleResolveWager ws i r) u
    = calculateUserExposure (filter (fun w => negb (id w =? i)%string) ws) u.
Proof.
  intros ws i r u. unfold calculateUserExposure. f_equal.
  apply open_after_resolve. intros w r' _. simpl. apply andb_false_r.
Qed.

(** *** Settlement and exposure with signed odds *)

(** Settlement is zero-sum in the signed-odds variant as well, for
    positive and for negative odds. *)
Theorem signed_settlement_zero_sum (w : Wager) (r : Result) :
  status w = resolved ->
  result w = Some r ->
  from w <> to w ->
  calculateUserReturns [w] (from w) + calculateUserReturns [w] (to w) == 0.
Proof.
  intros Hs Hr Hne.
  assert (Hf : involves (from w) w = true).
  { unfold involves, is_resolved. rewrite Hs, String.eqb_refl. reflexivity. }
  assert (Ht : involves (to w) w = true).
  { unfold involves, is_resolved. rewrite Hs, String.eqb_refl.
    apply orb_true_r. }
  unfold calculateUserReturns. simpl. rewrite Hf, Ht. simpl.
  unfold returnsStep. rewrite Hr, String.eqb_refl.
  apply String.eqb_neq in Hne. rewrite Hne.
  destruct r; simpl; ring.
Qed.

Lemma signed_settlement_zero_sum_witness :
  status Samples.dodgers = resolved
  /\ result Samples.dodgers = Some ResultFrom
  /\ from Samples.dodgers <> to Samples.dodgers
  /\ calculateUserReturns [Samples.dodgers] "John"
     + calculateUserReturns [Samples.dodgers] "Clay" == 0.
Proof.
  split; [reflexivity|]. split; [reflexivity|]. split; [discriminate|].
  apply (signed_settlement_zero_sum Samples.dodgers ResultFrom);
    [reflexivity | reflexivity | discriminate].
Defined.

Lemma multiplier_at_least_one (o : Q) : 1 <= getOddsMultiplier o.
Proof.
  unfold getOddsMultiplier. destruct (Qltb o 0) eqn:E; [apply Qle_refl|].
  assert (H : 0 <= o).
  { apply Qnot_lt_le. intros C. apply SignedFacts.Qltb_true in C. congruence. }
  assert (H' : 0 <= o / 100).
  { apply Qle_shift_div_l; [reflexivity|]. lra. }
  lra.
Qed.

Lemma signed_exposure_fold (u : string) (ws : list Wager) (a b : Q) :
  Forall (fun w => 0 <= amount w) ws -> b <= a ->
  b + openStake u ws
  <= fold_left (fun total wager =>
                  total + amount wager * getOddsMultiplier (odds wager))
       (filter (fun wager => (from wager =? u)%string && is_open wager) ws) a.
Proof.
  intros H; revert a b; induction H as [|w ws Hw Hws IH]; intros a b Hab; simpl.
  - lra.
  - destruct ((from w =? u)%string && is_open w); simpl.
    + pose proof (multiplier_at_least_one (odds w)) as M.
      assert (P : amount w <= amount w * getOddsMultiplier (odds w)).
      { assert (N : 0 <= amount w * (getOddsMultiplier (odds w) - 1))
          by (apply Qmult_le_0_compat; lra).
        lra. }
      specialize (IH (a + amount w * getOddsMultiplier (odds w)) (b + amount w)).
      lra.
    + specialize (IH a b Hab). lra.
Qed.

(** The odds multiplier is never below 1, so with non-negative stakes a
    user's exposure is at least the stakes of the open wagers the user
    placed. *)
Theorem signed_exposure_covers_the_stakes (ws : list Wager) (u : string) :
  Forall (fun w => 0 <= amount w) ws ->
  (forall o, 1 <= getOddsMultiplier o)
  /\ 0 <= openStake u ws
  /\ openStake u ws <= calculateUserExposure ws u.
Proof.
  intros H. split; [exact multiplier_at_least_one|]. split.
  - induction H as [|w ws Hw Hws IH]; simpl; [apply Qle_refl|].
    destruct ((from w =? u)%string && is_open w); lra.
  - pose proof (signed_exposure_fold u ws 0 0 H (Qle_refl 0)) as F.
    unfold calculateUserExposure. lra.
Qed.

Lemma signed_exposure_covers_the_stakes_witness :
  Forall (fun w => 0 <= amount w) [Samples.chiefs; Samples.dodgers]
  /\ openStake "Will" [Samples.chiefs; Samples.dodgers]
     <= calculateUserExposure [Samples.chiefs; Samples.dodgers] "Will".
Proof.
  assert (H : Forall (fun w => 0 <= amount w) [Samples.chiefs; Samples.dodgers]).
  { repeat constructor; intros C; discriminate C. }
  split; [exact H|].
  apply (signed_exposure_covers_the_stakes _ "Will" H).
Defined.

End SignedExtras.
